(** * A ClickUp tool server: the request/response plumbing of [src/index.ts]

    The program registers ten tools with an RPC dispatcher.  Each tool turns
    validated arguments into calls against the ClickUp REST API and reshapes
    the JSON answer.  This development embeds the latest revision of
    [src/index.ts] (the TypeScript entry point with the [Space], [Folder],
    [List], [Member] and [Task] interfaces):

    - JavaScript values and the few runtime operations the handlers rely on
      (truthiness, [||], [?.], property reads, [Array.prototype.map] and
      [slice], template literals, [JSON.stringify]);
    - the HTTP wrapper [api] over an upstream that is a state machine;
    - the handlers [hierarchy], [search], [task] and [update], written in a
      small monad that threads the upstream state, records every call that
      was issued together with its answer, and propagates exceptions.

    The repository also keeps the first version of the server, a single
    [index.js] with fewer tools and fields (no members, no due dates, ten
    search results, no special case for 204), and a first revision of
    [src/index.ts] whose hierarchy tool walks the spaces in a loop.  The
    statements about the latest revision come first; the two earlier
    versions are embedded as the modules [IndexJs] and [Rev1] and compared
    with the latest revision at the end.

    Numbers.  Every number the handlers touch is a user id, a priority or an
    epoch-millisecond timestamp, and is modelled as an integer ([Z]); the one
    non-integer the code can produce, [NaN] (from [Number] applied to text
    that is not a number), is a value of its own.  A JavaScript number is a
    double: the integers it holds exactly, and prints and reads back digit
    for digit, are those up to 2^53 in absolute value ([safe_integer]).  A
    statement that depends on the digits of a number is made for these.

    Strings.  A string is the list of its bytes in UTF-8.  JavaScript strings
    can hold a lone surrogate, which UTF-8 proper cannot write; it is the
    three bytes [ED A0..BF 80..BF] of generalised UTF-8, and a string without
    any is [well_formed].

    Conversions.  [String(v)], a template literal and [Number(v)] applied to
    an object go through the object's own [toString], and throw when an
    upstream object carries a property of that name.  The program converts
    the id of a space and the due date of a task, which the declared
    interfaces make strings; [ToString] and [Number] below are the
    conversions of values that are [primitive] or hold no such property, and
    a statement that depends on a conversion says which values it is for. *)

From Stdlib Require Import ZArith String Ascii List Lia.
From stdpp Require Import base tactics option list strings pretty.

Set Warnings "-register-all,-clear-no-such-hyp".

Local Open Scope Z_scope.

(** ** JavaScript values *)

Module JS.

(** Runtime values.  An object is its list of own properties in insertion
    order; the program only builds objects with distinct keys, and so does
    [JSON.parse]. *)
Inductive value : Type :=
| VUndef
| VNull
| VBool (b : bool)
| VNum (n : Z)
| VNaN
| VStr (s : string)
| VArr (elems : list value)
| VObj (fields : list (string * value)).

(** JSON documents: what [JSON.stringify] writes and what is sent on the
    wire.  There is no [undefined] here. *)
Inductive JSON : Type :=
| JNull
| JBool (b : bool)
| JNum (n : Z)
| JStr (s : string)
| JArr (elems : list JSON)
| JObj (fields : list (string * JSON)).

(** Exceptions.  [Error] is [new Error(msg)] thrown by the program itself;
    the others are raised by the runtime: a property read on [undefined] or
    [null] or a call of something that is not a function ([TypeError]),
    [res.json()] on a body that is not JSON ([SyntaxError]), and a rejected
    [fetch] ([NetworkError]). *)
Inductive error : Type :=
| Error (msg : string)
| TypeError (what : string)
| SyntaxError
| NetworkError.

Definition result (A : Type) : Type := error + A.

Abbreviation ok := (@inr error _) (only parsing).
Abbreviation throw := (@inl error _) (only parsing).

Definition is_error {A} (r : result A) : bool :=
  match r with inl _ => true | inr _ => false end.

#[global] Instance result_ret : MRet result := fun _ a => inr a.
#[global] Instance result_bind : MBind result := fun _ _ f r =>
  match r with inl e => inl e | inr a => f a end.
#[global] Instance result_fmap : FMap result := fun _ _ f r =>
  match r with inl e => inl e | inr a => inr (f a) end.

(** [ToBoolean]. *)
Definition truthy (v : value) : bool :=
  match v with
  | VUndef | VNull | VNaN => false
  | VBool b => b
  | VNum n => negb (n =? 0)%Z
  | VStr s => negb (String.eqb s "")
  | VArr _ | VObj _ => true
  end.

(** [a || b]. *)
Definition or_else (a b : value) : value := if truthy a then a else b.

Definition nullish (v : value) : bool :=
  match v with VUndef | VNull => true | _ => false end.

Fixpoint lookup_field {A} (k : string) (fs : list (string * A)) : option A :=
  match fs with
  | [] => None
  | (k', v) :: fs' => if String.eqb k k' then Some v else lookup_field k fs'
  end.

(** [v.k] for a data property [k].  Reading a property of [undefined] or
    [null] throws; a missing property reads as [undefined].  None of the
    names the program reads ([id], [name], [spaces], ...) is a property of a
    primitive or of an array, so those read as [undefined] too. *)
Definition get (v : value) (k : string) : result value :=
  match v with
  | VUndef | VNull =>
      throw (TypeError ("Cannot read properties of undefined or null (reading '" +:+ k +:+ "')"))
  | VObj fs => ok (default VUndef (lookup_field k fs))
  | _ => ok VUndef
  end.

(** [v?.k]. *)
Definition get_opt (v : value) (k : string) : result value :=
  if nullish v then ok VUndef else get v k.

(** [obj[k] = v] on a list of own properties. *)
Fixpoint set_field {A} (k : string) (v : A) (fs : list (string * A)) : list (string * A) :=
  match fs with
  | [] => [(k, v)]
  | (k', v') :: fs' =>
      if String.eqb k k' then (k, v) :: fs' else (k', v') :: set_field k v fs'
  end.

(** [v.map(f)], the callback being fallible: the first exception thrown by
    the callback ends the loop.  Only arrays have a [map] method among the
    values of this model. *)
Definition js_map (f : value -> result value) (v : value) : result value :=
  match v with
  | VArr l => VArr <$> mapM f l
  | VUndef | VNull =>
      throw (TypeError "Cannot read properties of undefined or null (reading 'map')")
  | _ => throw (TypeError "map is not a function")
  end.

(** [v?.map(f)]. *)
Definition js_map_opt (f : value -> result value) (v : value) : result value :=
  if nullish v then ok VUndef else js_map f v.

(** [v.slice(0, n)]: arrays and strings have the method.  The program maps
    over the result, and a string has no [map]: what is cut from a string
    (code units in JavaScript, bytes here) never reaches a result. *)
Definition js_slice0 (n : nat) (v : value) : result value :=
  match v with
  | VArr l => ok (VArr (take n l))
  | VStr s => ok (VStr (String.substring 0 n s))
  | VUndef | VNull =>
      throw (TypeError "Cannot read properties of undefined or null (reading 'slice')")
  | _ => throw (TypeError "slice is not a function")
  end.

(** Values that are not objects or arrays. *)
Definition primitive (v : value) : bool :=
  match v with
  | VArr _ | VObj _ => false
  | _ => true
  end.

(** The integers a double holds exactly and prints digit for digit
    ([Number.isSafeInteger], and 2^53 itself). *)
Definition safe_integer (n : Z) : Prop := Z.abs n ≤ 9007199254740992.

(** A lone surrogate starts with the byte [ED] followed by a byte from [A0]
    on; in generalised UTF-8 nothing else does. *)
Definition surrogate_lead (c1 c2 : ascii) : bool :=
  (N_of_ascii c1 =? 237)%N && (160 <=? N_of_ascii c2)%N.

(** The string holds no lone surrogate. *)
Fixpoint well_formed (s : string) : bool :=
  match s with
  | EmptyString => true
  | String c1 s' =>
      match s' with
      | String c2 _ => negb (surrogate_lead c1 c2) && well_formed s'
      | EmptyString => true
      end
  end.

(** [String(v)], as used by template literals, for a value whose conversion
    does not throw: a primitive, an array of such values, or an object
    without a property [toString] (an upstream object with one makes the
    conversion throw a [TypeError]; no value the program builds has one).
    A [safe_integer] prints as its decimal digits; a larger double prints
    the shortest digits that read back to it, in exponent notation from
    10^21 on, which [pretty] does not follow. *)
Fixpoint ToString (v : value) : string :=
  match v with
  | VUndef => "undefined"
  | VNull => "null"
  | VBool true => "true"
  | VBool false => "false"
  | VNum n => pretty n
  | VNaN => "NaN"
  | VStr s => s
  | VArr l =>
      String.concat ","
        (map (fun x => if nullish x then "" else ToString x) l)
  | VObj _ => "[object Object]"
  end.

Definition digit_of (c : ascii) : option Z :=
  let n := Z.of_N (N_of_ascii c) in
  if ((48 <=? n) && (n <=? 57))%Z then Some (n - 48) else None.

Fixpoint parse_digits (acc : Z) (s : string) : option Z :=
  match s with
  | EmptyString => Some acc
  | String c s' =>
      match digit_of c with
      | Some d => parse_digits (10 * acc + d) s'
      | None => None
      end
  end.

(** [Number(s)] on text: the empty string is 0, an optionally signed run of
    decimal digits is that integer (ClickUp sends a due date as a run of
    digits).  This is what JavaScript answers when the integer is a
    [safe_integer]; a longer run of digits is rounded to the nearest double.
    JavaScript reads more literals as numbers (a fraction, an exponent, a
    radix prefix, surrounding blanks); the model knows integers only and
    answers [NaN] for every other text.  The one statement that depends on
    what [Number] answers, on the due date of a task, is made for the
    decimal text of a [safe_integer]. *)
Definition StringToNumber (s : string) : value :=
  match s with
  | EmptyString => VNum 0
  | String "-" (String _ _ as t) =>
      match parse_digits 0 t with Some n => VNum (- n) | None => VNaN end
  | String "+" (String _ _ as t) =>
      match parse_digits 0 t with Some n => VNum n | None => VNaN end
  | _ => match parse_digits 0 s with Some n => VNum n | None => VNaN end
  end.

(** [Number(v)], for a value whose conversion does not throw (see
    [ToString]: an array or an object is first converted to text). *)
Fixpoint Number (v : value) : value :=
  match v with
  | VUndef => VNaN
  | VNull => VNum 0
  | VBool b => VNum (if b then 1 else 0)
  | VNum n => VNum n
  | VNaN => VNaN
  | VStr s => StringToNumber s
  | VArr [] => VNum 0
  | VArr [x] =>
      match x with
      | VUndef | VNull => VNum 0
      | VBool _ | VObj _ => VNaN
      | _ => Number x
      end
  | VArr _ => VNaN
  | VObj _ => VNaN
  end.

(** [JSON.stringify(v)], up to the rendering of the document as text.
    [undefined] has no rendering: as a property value it drops the
    property, as an array element it is written [null]; [NaN] is written
    [null]. *)
Fixpoint stringify (v : value) : option JSON :=
  match v with
  | VUndef => None
  | VNull => Some JNull
  | VBool b => Some (JBool b)
  | VNum n => Some (JNum n)
  | VNaN => Some JNull
  | VStr s => Some (JStr s)
  | VArr l => Some (JArr (map (fun x => default JNull (stringify x)) l))
  | VObj fs =>
      Some (JObj (omap (fun kv => match kv with
                                  | (k, x) => pair k <$> stringify x
                                  end) fs))
  end.

(** Property of a JSON document, [None] when the document is not an object
    or has no such property. *)
Definition jfield (k : string) (j : JSON) : option JSON :=
  match j with
  | JObj fs => lookup_field k fs
  | _ => None
  end.

Definition jkeys (j : JSON) : list string :=
  match j with
  | JObj fs => fst <$> fs
  | _ => []
  end.

End JS.

Export JS.

(** ** The upstream and the monad of the handlers *)

(** What [fetch] is given.  [body] is the JSON document whose text is sent,
    [None] when no body is sent. *)
Record request : Type := {
  method : string;
  url : string;
  headers : list (string * string);
  body : option JSON;
}.

(** What [fetch] resolves to: the status and the two readings of the body
    the program uses, [res.text()] and [res.json()].  The parser that ties
    them is not modelled: [json_body] is the value the body text parses to,
    and [None] when the body text is not JSON, in which case [res.json()]
    rejects. *)
Record response : Type := {
  status : Z;
  text : string;
  json_body : option value;
}.

(** [res.ok]. *)
Definition res_ok (res : response) : bool :=
  ((200 <=? status res) && (status res <=? 299))%Z.

(** A call that was issued, with what came back; [None] is a [fetch] that
    rejected (no HTTP response at all). *)
Definition call : Type := request * option response.

(** The part of [api] that follows [await fetch(...)]. *)
Definition api_result (o : option response) : result value :=
  match o with
  | None => throw NetworkError
  | Some res =>
      if negb (res_ok res)
      then throw (Error (pretty (status res) +:+ ": " +:+ text res))
      else if (status res =? 204)%Z then ok (VObj [])
      else match json_body res with
           | Some v => ok v
           | None => throw SyntaxError
           end
  end.

(** [URLSearchParams.prototype.toString]: the form-urlencoded serialisation
    of a list of name/value pairs.  Names and values are first made
    sequences of scalar values: every lone surrogate becomes U+FFFD (the
    bytes [EF BF BD]).  Then a blank is written [+], letters, digits and
    [* - . _] stand for themselves, and every other byte is written [%XX]. *)
Definition replacement_character : string :=
  String (ascii_of_N 239) (String (ascii_of_N 191) (String (ascii_of_N 189) EmptyString)).

Fixpoint USVString (s : string) : string :=
  match s with
  | EmptyString => EmptyString
  | String c1 s' =>
      match s' with
      | String c2 (String _ rest) =>
          if surrogate_lead c1 c2 then replacement_character +:+ USVString rest
          else String c1 (USVString s')
      | _ => String c1 (USVString s')
      end
  end.

Definition hex_digit (n : N) : ascii :=
  default "0"%char (String.get (N.to_nat n) "0123456789ABCDEF").

Definition form_safe (c : ascii) : bool :=
  let n := N_of_ascii c in
  ((48 <=? n) && (n <=? 57) || (65 <=? n) && (n <=? 90)
   || (97 <=? n) && (n <=? 122)
   || (n =? 42) || (n =? 45) || (n =? 46) || (n =? 95))%N.

Definition form_encode_byte (c : ascii) : string :=
  let n := N_of_ascii c in
  if (n =? 32)%N then "+"
  else if form_safe c then String c EmptyString
  else String "%" (String (hex_digit (n / 16)) (String (hex_digit (n mod 16)) EmptyString)).

Fixpoint form_encode_bytes (s : string) : string :=
  match s with
  | EmptyString => EmptyString
  | String c s' => form_encode_byte c +:+ form_encode_bytes s'
  end.

Definition form_encode (s : string) : string := form_encode_bytes (USVString s).

Definition URLSearchParams_toString (params : list (string * string)) : string :=
  String.concat "&"
    (map (fun kv => form_encode (fst kv) +:+ "=" +:+ form_encode (snd kv)) params).

Definition API : string := "https://api.clickup.com/api/v2".

Section Program.

(** The upstream service is a state machine: [fetch] answers a request in a
    state of the world and moves to the next state. *)
Variable World : Type.
Variable fetch : request -> World -> option response * World.

(** [process.env.CLICKUP_API_TOKEN] (the process exits at start-up when it
    is missing or empty) and [process.env.CLICKUP_TEAM_ID]. *)
Variable TOKEN : string.
Variable DEFAULT_TEAM : option string.

(** A handler run from a state of the world ends in a value or an exception,
    leaves the world in a new state and has issued a sequence of calls. *)
Definition M (A : Type) : Type := World -> result A * World * list call.

Definition run {A} (m : M A) (w : World) : result A * World * list call := m w.

Definition outcome {A} (o : result A * World * list call) : result A := o.1.1.
Definition calls {A} (o : result A * World * list call) : list call := o.2.

#[global] Instance M_ret : MRet M := fun _ a w => (ok a, w, []).

#[global] Instance M_bind : MBind M := fun _ _ f m w =>
  match m w with
  | (inl e, w1, l1) => (inl e, w1, l1)
  | (inr a, w1, l1) =>
      match f a w1 with
      | (r, w2, l2) => (r, w2, l1 ++ l2)
      end
  end.

#[global] Instance M_fmap : FMap M := fun _ _ f m w =>
  match m w with
  | (r, w1, l1) => (f <$> r, w1, l1)
  end.

(** A pure, possibly throwing, computation. *)
Definition lift {A} (r : result A) : M A := fun w => (r, w, []).

(** [await Promise.all([a, b])] where [a] and [b] are calls that have both
    been started: both are issued, in this order, whatever the answer to the
    first, and the join fails when one of them fails.  When both fail the
    runtime keeps the rejection that settles first; the model keeps the
    leftmost, and nothing below depends on which one is kept. *)
Definition par2 {A B} (a : M A) (b : M B) : M (A * B) := fun w =>
  match a w with
  | (ra, w1, l1) =>
      match b w1 with
      | (rb, w2, l2) =>
          (match ra, rb with
           | inl e, _ => inl e
           | inr _, inl e => inl e
           | inr x, inr y => inr (x, y)
           end, w2, l1 ++ l2)
      end
  end.

(** [await Promise.all(ms)] for a list of started computations. *)
Fixpoint par_all {A} (ms : list (M A)) : M (list A) :=
  match ms with
  | [] => mret []
  | m :: ms' => p ← par2 m (par_all ms'); mret (p.1 :: p.2)
  end.

Definition request_headers : list (string * string) :=
  [("Authorization", TOKEN); ("Content-Type", "application/json")].

Definition mk_request (m path : string) (b : option value) : request :=
  {| method := m;
     url := API +:+ path;
     headers := request_headers;
     body := match b with
             | Some v => if truthy v then stringify v else None
             | None => None
             end |}.

(** [api(method, path, body)]: one [fetch], then [api_result]. *)
Definition api (m path : string) (b : option value) : M value := fun w =>
  let req := mk_request m path b in
  match fetch req w with
  | (o, w') => (api_result o, w', [(req, o)])
  end.

(** [json(data)]: the payload is the text of this document, printed with an
    indentation of two ([None] would be a payload without text; the handlers
    only pass objects and arrays). *)
Definition json (data : value) : option JSON := stringify data.

(** Optional arguments, as the handler sees them: an argument that was not
    supplied is [undefined]. *)
Definition opt_str (o : option string) : value := from_option VStr VUndef o.
Definition opt_num (o : option Z) : value := from_option VNum VUndef o.

Definition team_required : error := Error "team required (or set CLICKUP_TEAM_ID)".

(** ** Response shaping *)

(** [(l) => ({ id: l.id, name: l.name })]. *)
Definition shape_list (l : value) : result value :=
  i ← get l "id";
  n ← get l "name";
  ok (VObj [("id", i); ("name", n)]).

(** [(f) => ({ id: f.id, name: f.name, lists: (f.lists || []).map(...) })]. *)
Definition shape_folder (f : value) : result value :=
  i ← get f "id";
  n ← get f "name";
  ls ← get f "lists";
  lists ← js_map shape_list (or_else ls (VArr []));
  ok (VObj [("id", i); ("name", n); ("lists", lists)]).

(** [(m) => ({ id: m.user.id, name: m.user.username, email: m.user.email })]. *)
Definition shape_member (m : value) : result value :=
  u ← get m "user";
  i ← get u "id";
  n ← get u "username";
  e ← get u "email";
  ok (VObj [("id", i); ("name", n); ("email", e)]).

(** [(a) => ({ id: a.id, name: a.username })]. *)
Definition shape_assignee (a : value) : result value :=
  i ← get a "id";
  n ← get a "username";
  ok (VObj [("id", i); ("name", n)]).

(** [task.due_date ? Number(task.due_date) : null]. *)
Definition shape_due (t : value) : result value :=
  d ← get t "due_date";
  ok (if truthy d then Number d else VNull).

(** The compact projection of [search]. *)
Definition shape_search_task (t : value) : result value :=
  i ← get t "id";
  n ← get t "name";
  st ← get t "status";
  s ← get_opt st "status";
  asg ← get t "assignees";
  a ← js_map_opt shape_assignee asg;
  d ← shape_due t;
  u ← get t "url";
  ok (VObj [("id", i); ("name", n); ("status", s); ("assignees", a);
            ("due", d); ("url", u)]).

(** The full projection of [task]. *)
Definition shape_task (t : value) : result value :=
  i ← get t "id";
  n ← get t "name";
  de ← get t "description";
  st ← get t "status";
  s ← get_opt st "status";
  pr ← get t "priority";
  p ← get_opt pr "priority";
  tg ← get t "tags";
  tags ← js_map_opt (fun x => get x "name") tg;
  asg ← get t "assignees";
  a ← js_map_opt shape_assignee asg;
  d ← shape_due t;
  u ← get t "url";
  ok (VObj [("id", i); ("name", n); ("desc", de); ("status", s);
            ("priority", p); ("tags", tags); ("assignees", a);
            ("due", d); ("url", u)]).

(** ** The handlers *)

(** The record of one space, built once its folders and its lists have been
    fetched. *)
Definition space_record (sp foldersRes listsRes : value) : result value :=
  i ← get sp "id";
  n ← get sp "name";
  fs ← get foldersRes "folders";
  folders ← js_map shape_folder (or_else fs (VArr []));
  ls ← get listsRes "lists";
  lists ← js_map shape_list (or_else ls (VArr []));
  ok (VObj [("id", i); ("name", n); ("folders", folders); ("lists", lists)]).

Definition folder_path (sid : value) : string :=
  "/space/" +:+ ToString sid +:+ "/folder?archived=false".
Definition list_path (sid : value) : string :=
  "/space/" +:+ ToString sid +:+ "/list?archived=false".

(** The body of the callback mapped over the spaces: the two calls of one
    space (reading [sp.id] throws, before any call, when [sp] is [null])
    and, once both have answered, its record. *)
Definition space_entry (sp : value) : M value :=
  sid ← lift (get sp "id");
  p ← par2 (api "GET" (folder_path sid) None) (api "GET" (list_path sid) None);
  lift (space_record sp p.1 p.2).

(** [(spacesRes.spaces || []).map(async (sp) => ...)] under [Promise.all]:
    the callback runs for every space, so every per-space call is issued
    before any of them is awaited. *)
Definition space_entries (spacesRes : value) : M value :=
  sps ← lift (get spacesRes "spaces");
  match or_else sps (VArr []) with
  | VArr l => VArr <$> par_all (space_entry <$> l)
  | _ => lift (throw (TypeError "map is not a function"))
  end.

Definition team_members (teamInfo : value) : result value :=
  tm ← get teamInfo "team";
  ms ← get_opt tm "members";
  js_map shape_member (or_else ms (VArr [])).

Definition hierarchy (team : option string) : M (option JSON) :=
  let teamId := or_else (opt_str team) (opt_str DEFAULT_TEAM) in
  if negb (truthy teamId) then lift (throw team_required)
  else
    p ← par2 (api "GET" ("/team/" +:+ ToString teamId) None)
             (api "GET" ("/team/" +:+ ToString teamId +:+ "/space?archived=false") None);
    spaces ← space_entries p.2;
    members ← lift (team_members p.1);
    mret (json (VObj [("spaces", spaces); ("members", members)])).

(** [params.append(k, String(v))] guarded by [if (v)]. *)
Definition append_if (k : string) (v : value) (params : list (string * string))
  : list (string * string) :=
  if truthy v then params ++ [(k, ToString v)] else params.

Definition search_params (q : string) (assignee due_before due_after : option Z)
  : list (string * string) :=
  append_if "due_date_gt" (opt_num due_after)
    (append_if "due_date_lt" (opt_num due_before)
       (append_if "assignees[]" (opt_num assignee) [("query", q)])).

Definition search_tasks (res : value) : result value :=
  ts ← get res "tasks";
  first ← js_slice0 20 (or_else ts (VArr []));
  js_map shape_search_task first.

Definition search (q : string) (team : option string)
    (assignee due_before due_after : option Z) : M (option JSON) :=
  let teamId := or_else (opt_str team) (opt_str DEFAULT_TEAM) in
  if negb (truthy teamId) then lift (throw team_required)
  else
    let params := search_params q assignee due_before due_after in
    res ← api "GET" ("/team/" +:+ ToString teamId +:+ "/task?"
                       +:+ URLSearchParams_toString params) None;
    tasks ← lift (search_tasks res);
    mret (json tasks).

Definition task (id : string) : M (option JSON) :=
  t ← api "GET" ("/task/" +:+ id) None;
  data ← lift (shape_task t);
  mret (json data).

(** [if (v !== undefined) body[k] = f(v)]. *)
Definition assign_if_defined {A} (k : string) (o : option A) (f : A -> value)
    (body : list (string * value)) : list (string * value) :=
  match o with
  | Some a => set_field k (f a) body
  | None => body
  end.

Definition update_body (name desc status : option string) (priority due : option Z)
  : list (string * value) :=
  assign_if_defined "due_date" due (fun d => or_else (VNum d) VNull)
    (assign_if_defined "priority" priority VNum
       (assign_if_defined "status" status VStr
          (assign_if_defined "description" desc VStr
             (assign_if_defined "name" name VStr [])))).

Definition update (id : string) (name desc status : option string)
    (priority due : option Z) : M (option JSON) :=
  let body := update_body name desc status priority due in
  t ← api "PUT" ("/task/" +:+ id) (Some (VObj body));
  data ← lift (i ← get t "id"; u ← get t "url"; ok (VObj [("id", i); ("url", u)]));
  mret (json data).

End Program.

Arguments M World A : clear implicits.
Arguments run {World A} m w.
Arguments outcome {World A} o.
Arguments calls {World A} o.
Arguments lift {World A} r.
Arguments par2 {World A B} a b.
Arguments par_all {World A} ms.
Arguments api {World} fetch TOKEN m path b.
Arguments space_entry {World} fetch TOKEN sp.
Arguments space_entries {World} fetch TOKEN spacesRes.
Arguments hierarchy {World} fetch TOKEN DEFAULT_TEAM team.
Arguments search {World} fetch TOKEN DEFAULT_TEAM q team assignee due_before due_after.
Arguments task {World} fetch TOKEN id.
Arguments update {World} fetch TOKEN id name desc status priority due.

(** ** Vocabulary of the statements *)

(** A recorded call failed: [api] threw on its answer. *)
Definition failed (c : call) : Prop := is_error (api_result c.2) = true.

(** A computation is all-or-nothing when a failed call anywhere among the
    calls it issued means that the computation itself ended in an
    exception. *)
Definition all_or_nothing {World A} (m : M World A) : Prop :=
  ∀ w, Exists failed (calls (run m w)) → is_error (outcome (run m w)) = true.

(** The upstream task has no due date: the property is missing or [null]. *)
Definition no_due_date (t : value) : Prop :=
  get t "due_date" = ok VUndef ∨ get t "due_date" = ok VNull.


(** An optional string argument counts for [||] only when it is supplied
    and not empty. *)
Definition usable (o : option string) (t : string) : Prop := o = Some t ∧ t ≠ "".
Definition unusable (o : option string) : Prop := o = None ∨ o = Some "".

(** A zero filter is no filter. *)
Definition drop_zero (o : option Z) : option Z :=
  match o with
  | Some 0 => None
  | _ => o
  end.

(** The key a filter puts in the query string: its own when the argument is
    supplied and not 0, none otherwise. *)
Definition sent_key (k : string) (o : option Z) : list string :=
  match drop_zero o with
  | Some _ => [k]
  | None => []
  end.

(** The call asks about a space: its URL is under [/space/]. *)
Definition about_a_space (c : call) : Prop :=
  ∃ rest, url c.1 = API +:+ "/space/" +:+ rest.

(** What [JSON.stringify] writes for an array element or a kept property. *)
Definition written (v : value) : JSON := default JNull (stringify v).

(** A value of the declared interface [Member], how it arrives from upstream
    and how it leaves in the result. *)
Record Member : Type := {
  user_id : Z;
  user_username : string;
  user_email : string;
}.

Definition member_value (m : Member) : value :=
  VObj [("user", VObj [("id", VNum (user_id m));
                       ("username", VStr (user_username m));
                       ("email", VStr (user_email m))])].

(** An upstream value carries the member [m]: its [user] has the three
    properties of the interface (and maybe others). *)
Definition is_member (mv : value) (m : Member) : Prop :=
  ∃ u, get mv "user" = ok u
       ∧ get u "id" = ok (VNum (user_id m))
       ∧ get u "username" = ok (VStr (user_username m))
       ∧ get u "email" = ok (VStr (user_email m)).

Definition member_json (m : Member) : JSON :=
  JObj [("id", JNum (user_id m)); ("name", JStr (user_username m));
        ("email", JStr (user_email m))].

(** ** A table-driven upstream for the examples

    The world has no state; a request is answered by the entry of its URL,
    and an unknown URL by a [fetch] that rejects. *)
Definition table_fetch (tbl : list (string * option response))
    (req : request) (w : unit) : option response * unit :=
  (default None (lookup_field (url req) tbl), w).

(** The text upstream sends for a document (names and strings of the
    examples hold no control character). *)
Definition wire_quote : string := String (ascii_of_nat 34) EmptyString.

Fixpoint wire_escape (s : string) : string :=
  match s with
  | EmptyString => EmptyString
  | String c s' =>
      if (N_of_ascii c =? 34)%N || (N_of_ascii c =? 92)%N
      then String "\" (String c (wire_escape s'))
      else String c (wire_escape s')
  end.

Fixpoint wire_text (j : JSON) : string :=
  match j with
  | JNull => "null"
  | JBool true => "true"
  | JBool false => "false"
  | JNum n => pretty n
  | JStr s => wire_quote +:+ wire_escape s +:+ wire_quote
  | JArr l => "[" +:+ String.concat "," (map wire_text l) +:+ "]"
  | JObj fs =>
      "{" +:+ String.concat ","
                (map (fun kv => match kv with
                                | (k, x) => wire_quote +:+ wire_escape k +:+ wire_quote
                                            +:+ ":" +:+ wire_text x
                                end) fs) +:+ "}"
  end.

Definition answer (st : Z) (v : value) : option response :=
  Some {| status := st; text := wire_text (written v); json_body := Some v |}.

Definition refusal (st : Z) (msg : string) : option response :=
  Some {| status := st; text := msg; json_body := None |}.

Definition named (i n : string) : value := VObj [("id", VStr i); ("name", VStr n)].

Definition bare_task (i : string) : value :=
  VObj [("id", VStr i); ("name", VStr "write report");
        ("url", VStr ("https://app.clickup.com/t/" +:+ i))].

(** The URLs a space contributes to the calls of [hierarchy]. *)
Definition space_urls (sp : value) : list string :=
  match get sp "id" with
  | inr sid => [API +:+ folder_path sid; API +:+ list_path sid]
  | inl _ => []
  end.

(** The URLs of the two calls about the space whose id is the string [i]. *)
Definition urls_of_space (i : string) : list string :=
  [API +:+ "/space/" +:+ i +:+ "/folder?archived=false";
   API +:+ "/space/" +:+ i +:+ "/list?archived=false"].

(** A team with three spaces; the folders of the second one cannot be
    fetched. *)
Definition three_spaces : list (string * option response) :=
  [ (API +:+ "/team/T",
     answer 200 (VObj [("team", VObj [("members", VArr [])])]));
    (API +:+ "/team/T/space?archived=false",
     answer 200 (VObj [("spaces", VArr [named "s1" "Design"; named "s2" "Build";
                                        named "s3" "Ship"])]));
    (API +:+ "/space/s1/folder?archived=false", answer 200 (VObj [("folders", VArr [])]));
    (API +:+ "/space/s1/list?archived=false", answer 200 (VObj [("lists", VArr [])]));
    (API +:+ "/space/s2/folder?archived=false", refusal 500 "upstream unavailable");
    (API +:+ "/space/s2/list?archived=false", answer 200 (VObj [("lists", VArr [])]));
    (API +:+ "/space/s3/folder?archived=false", answer 200 (VObj [("folders", VArr [])]));
    (API +:+ "/space/s3/list?archived=false", answer 200 (VObj [("lists", VArr [])])) ].

(** A team whose search for "report" matches twenty-five tasks, none of
    which has a due date, an assignee list or tags. *)
Definition many_tasks : list value :=
  (λ n, bare_task (pretty (Z.of_nat n))) <$> seq 1 25.

Definition search_table : list (string * option response) :=
  [ (API +:+ "/team/T/task?query=report",
     answer 200 (VObj [("tasks", VArr many_tasks)]));
    (API +:+ "/task/86a1", answer 200 (bare_task "86a1")) ].

(** The one request of [search], for a resolved team. *)
Definition search_request (TOKEN : string) (teamId : value) (q : string)
    (assignee due_before due_after : option Z) : request :=
  mk_request TOKEN "GET"
    ("/team/" +:+ ToString teamId +:+ "/task?"
       +:+ URLSearchParams_toString (search_params q assignee due_before due_after))
    None.

(** The record [shape_member] builds for a member of the declared shape. *)
Definition member_shaped (m : Member) : value :=
  VObj [("id", VNum (user_id m)); ("name", VStr (user_username m));
        ("email", VStr (user_email m))].

(** A team with two members and no space. *)
Definition two_members : list Member :=
  [ {| user_id := 81; user_username := "ada"; user_email := "ada@example.org" |};
    {| user_id := 82; user_username := "grace"; user_email := "grace@example.org" |} ].

Definition empty_team : list (string * option response) :=
  [ (API +:+ "/team/T",
     answer 200 (VObj [("team", VObj [("id", VStr "T");
                                      ("members", VArr (member_value <$> two_members))])]));
    (API +:+ "/team/T/space?archived=false", answer 200 (VObj [("spaces", VArr [])])) ].

(** An upstream that acknowledges an update, refuses an unknown task with
    404 and answers the tag endpoint with an empty body. *)
Definition crud_table : list (string * option response) :=
  [ (API +:+ "/task/86a1",
     answer 200 (VObj [("id", VStr "86a1");
                       ("url", VStr "https://app.clickup.com/t/86a1")]));
    (API +:+ "/task/nope",
     Some {| status := 404; text := "Task not found"; json_body := None |});
    (API +:+ "/task/86a1/tag/urgent",
     Some {| status := 200; text := ""; json_body := None |});
    (API +:+ "/task/86a2",
     Some {| status := 204; text := ""; json_body := None |}) ].

(** ** The remaining tools of [src/index.ts] *)

(** [encodeURIComponent] on the UTF-8 bytes of a [well_formed] string:
    letters, digits and [- _ . ! ~ * ' ( )] stand for themselves, every other
    byte is written [%XX].  On a string that holds a lone surrogate the
    builtin throws a [URIError] instead, before the caller can issue a call;
    that case is outside this definition, and the statement on the calls of
    [tag] and [untag] is made for well-formed tags. *)
Definition uri_unreserved (c : ascii) : bool :=
  let n := N_of_ascii c in
  ((48 <=? n) && (n <=? 57) || (65 <=? n) && (n <=? 90)
   || (97 <=? n) && (n <=? 122)
   || (n =? 45) || (n =? 95) || (n =? 46) || (n =? 33) || (n =? 126)
   || (n =? 42) || (n =? 39) || (n =? 40) || (n =? 41))%N.

Definition percent_byte (c : ascii) : string :=
  let n := N_of_ascii c in
  String "%" (String (hex_digit (n / 16)) (String (hex_digit (n mod 16)) EmptyString)).

Definition uri_encode_byte (c : ascii) : string :=
  if uri_unreserved c then String c EmptyString else percent_byte c.

Fixpoint encodeURIComponent (s : string) : string :=
  match s with
  | EmptyString => EmptyString
  | String c s' => uri_encode_byte c +:+ encodeURIComponent s'
  end.

(** [{ ok: true }]. *)
Definition acknowledged : value := VObj [("ok", VBool true)].

Section OtherTools.

Context {World : Type}.
Variable fetch : request → World → option response * World.
Variable TOKEN : string.

(** [{ id: t.id, url: t.url }], the result of [create] (and of [update]). *)
Definition id_and_url (t : value) : result value :=
  i ← get t "id";
  u ← get t "url";
  ok (VObj [("id", i); ("url", u)]).

Definition opt_strs (o : option (list string)) : value :=
  from_option (λ l, VArr (VStr <$> l)) VUndef o.
Definition opt_nums (o : option (list Z)) : value :=
  from_option (λ l, VArr (VNum <$> l)) VUndef o.

(** The object literal [create] passes to [api]: a property whose argument
    was not supplied holds [undefined]. *)
Definition create_body (name : string) (desc : option string) (priority : option Z)
    (tags : option (list string)) (due : option Z) (assignees : option (list Z)) : value :=
  VObj [("name", VStr name); ("description", opt_str desc);
        ("priority", opt_num priority); ("tags", opt_strs tags);
        ("due_date", opt_num due); ("assignees", opt_nums assignees)].

Definition create (list_id name : string) (desc : option string) (priority : option Z)
    (tags : option (list string)) (due : option Z) (assignees : option (list Z))
  : M World (option JSON) :=
  t ← api fetch TOKEN "POST" ("/list/" +:+ list_id +:+ "/task")
        (Some (create_body name desc priority tags due assignees));
  data ← lift (id_and_url t);
  mret (json data).

(** The tool [delete]. *)
Definition delete_task (id : string) : M World (option JSON) :=
  _ ← api fetch TOKEN "DELETE" ("/task/" +:+ id) None;
  mret (json acknowledged).

Definition assign (id : string) (user : Z) : M World (option JSON) :=
  _ ← api fetch TOKEN "PUT" ("/task/" +:+ id)
        (Some (VObj [("assignees", VObj [("add", VArr [VNum user])])]));
  mret (json acknowledged).

Definition unassign (id : string) (user : Z) : M World (option JSON) :=
  _ ← api fetch TOKEN "PUT" ("/task/" +:+ id)
        (Some (VObj [("assignees", VObj [("rem", VArr [VNum user])])]));
  mret (json acknowledged).

Definition tag_path (id tag : string) : string :=
  "/task/" +:+ id +:+ "/tag/" +:+ encodeURIComponent tag.

Definition tag (id tag : string) : M World (option JSON) :=
  _ ← api fetch TOKEN "POST" (tag_path id tag) (Some (VObj []));
  mret (json acknowledged).

Definition untag (id tag : string) : M World (option JSON) :=
  _ ← api fetch TOKEN "DELETE" (tag_path id tag) None;
  mret (json acknowledged).

End OtherTools.

(** Every call a computation issues satisfies [P]. *)
Definition every_call {World A} (P : call → Prop) (m : M World A) : Prop :=
  ∀ w, Forall P (calls (run m w)).

(** The request only reads: a [GET] without body. *)
Definition read_only (c : call) : Prop := method c.1 = "GET" ∧ body c.1 = None.

(** A collection the task projections can map over: missing or [null], or
    an array without [null] or [undefined] elements. *)
Definition collection_ok (v : value) : Prop :=
  nullish v = true ∨ ∃ l, v = VArr l ∧ Forall (λ x, nullish x = false) l.

(** ** Earlier revisions

    [for (const x of v)]: an array gives its elements, a string its code
    points (the groups of a lead byte and its continuation bytes), and
    nothing else among the values of this model can be iterated. *)
Definition is_continuation (c : ascii) : bool :=
  let n := N_of_ascii c in ((128 <=? n) && (n <? 192))%N.

Fixpoint code_points (s : string) : list string :=
  match s with
  | EmptyString => []
  | String c s' =>
      match s' with
      | String c' _ =>
          if is_continuation c'
          then match code_points s' with
               | g :: gs => String c g :: gs
               | [] => [String c EmptyString]
               end
          else String c EmptyString :: code_points s'
      | EmptyString => [String c EmptyString]
      end
  end.

Definition iterate (v : value) : result (list value) :=
  match v with
  | VArr l => ok l
  | VStr s => ok (VStr <$> code_points s)
  | _ => throw (TypeError "is not iterable")
  end.

(** The first revision of [src/index.ts]: the hierarchy tool walks the
    spaces in a loop, awaiting the two calls of a space before it turns to
    the next, and the assignee tools use a dedicated endpoint.  The other
    tools are those of the latest revision. *)
Module Rev1.

Section Program.

Context {World : Type}.
Variable fetch : request → World → option response * World.
Variable TOKEN : string.
Variable DEFAULT_TEAM : option string.

(** [for (const sp of spaces.spaces || []) { ...; out.push({...}) }]. *)
Definition space_entries (spacesRes : value) : M World value :=
  sps ← lift (get spacesRes "spaces");
  l ← lift (iterate (or_else sps (VArr [])));
  VArr <$> mapM (space_entry fetch TOKEN) l.

Definition hierarchy (team : option string) : M World (option JSON) :=
  let t := or_else (opt_str team) (opt_str DEFAULT_TEAM) in
  if negb (truthy t) then lift (throw team_required)
  else
    p ← par2 (api fetch TOKEN "GET" ("/team/" +:+ ToString t) None)
             (api fetch TOKEN "GET" ("/team/" +:+ ToString t +:+ "/space?archived=false") None);
    out ← space_entries p.2;
    members ← lift (team_members p.1);
    mret (json (VObj [("spaces", out); ("members", members)])).

Definition assign (id : string) (user : Z) : M World (option JSON) :=
  _ ← api fetch TOKEN "POST" ("/task/" +:+ id +:+ "/assignee")
        (Some (VObj [("assignee", VNum user)]));
  mret (json acknowledged).

Definition unassign (id : string) (user : Z) : M World (option JSON) :=
  _ ← api fetch TOKEN "DELETE" ("/task/" +:+ id +:+ "/assignee")
        (Some (VObj [("assignee", VNum user)]));
  mret (json acknowledged).

End Program.

End Rev1.

(** The first version of the server, [index.js]: seven tools, no members,
    no due dates, no assignees, and an [api] that parses every successful
    answer. *)
Module IndexJs.

(** The part of [api] that follows [await fetch(...)]. *)
Definition api_result (o : option response) : result value :=
  match o with
  | None => throw NetworkError
  | Some r =>
      if negb (res_ok r)
      then throw (Error (pretty (status r) +:+ ": " +:+ text r))
      else match json_body r with
           | Some v => ok v
           | None => throw SyntaxError
           end
  end.

Section Program.

Context {World : Type}.
Variable fetch : request → World → option response * World.
Variable TOKEN : string.
Variable DEFAULT_TEAM : option string.

Definition api (m p : string) (b : option value) : M World value := fun w =>
  let req := mk_request TOKEN m p b in
  match fetch req w with
  | (o, w') => (api_result o, w', [(req, o)])
  end.

(** [t => ({ id: t.id, name: t.name, status: t.status?.status, url: t.url })]. *)
Definition shape_search_task (t : value) : result value :=
  i ← get t "id";
  n ← get t "name";
  st ← get t "status";
  s ← get_opt st "status";
  u ← get t "url";
  ok (VObj [("id", i); ("name", n); ("status", s); ("url", u)]).

Definition search_tasks (r : value) : result value :=
  ts ← get r "tasks";
  first ← js_slice0 10 (or_else ts (VArr []));
  js_map shape_search_task first.

Definition search (q : string) (team : option string) : M World (option JSON) :=
  let t := or_else (opt_str team) (opt_str DEFAULT_TEAM) in
  if negb (truthy t) then lift (throw team_required)
  else
    r ← api "GET" ("/team/" +:+ ToString t +:+ "/task?query=" +:+ encodeURIComponent q) None;
    tasks ← lift (search_tasks r);
    mret (json tasks).

(** The body of the loop over the spaces: the folders are awaited before
    the lists are asked for. *)
Definition space_entry (sp : value) : M World value :=
  sid ← lift (get sp "id");
  f ← api "GET" (folder_path sid) None;
  l ← api "GET" (list_path sid) None;
  lift (space_record sp f l).

Definition hierarchy (team : option string) : M World (option JSON) :=
  let t := or_else (opt_str team) (opt_str DEFAULT_TEAM) in
  if negb (truthy t) then lift (throw team_required)
  else
    s ← api "GET" ("/team/" +:+ ToString t +:+ "/space?archived=false") None;
    sps ← lift (get s "spaces");
    l ← lift (iterate (or_else sps (VArr [])));
    out ← mapM space_entry l;
    mret (json (VArr out)).

Definition shape_task (t : value) : result value :=
  i ← get t "id";
  n ← get t "name";
  de ← get t "description";
  st ← get t "status";
  s ← get_opt st "status";
  pr ← get t "priority";
  p ← get_opt pr "priority";
  tg ← get t "tags";
  tags ← js_map_opt (fun x => get x "name") tg;
  u ← get t "url";
  ok (VObj [("id", i); ("name", n); ("desc", de); ("status", s);
            ("priority", p); ("tags", tags); ("url", u)]).

Definition task (id : string) : M World (option JSON) :=
  t ← api "GET" ("/task/" +:+ id) None;
  data ← lift (shape_task t);
  mret (json data).

Definition create (list_id name : string) (desc : option string) (priority : option Z)
    (tags : option (list string)) : M World (option JSON) :=
  t ← api "POST" ("/list/" +:+ list_id +:+ "/task")
        (Some (VObj [("name", VStr name); ("description", opt_str desc);
                     ("priority", opt_num priority); ("tags", opt_strs tags)]));
  data ← lift (id_and_url t);
  mret (json data).

Definition update (id : string) (name desc status : option string)
    (priority : option Z) : M World (option JSON) :=
  t ← api "PUT" ("/task/" +:+ id)
        (Some (VObj [("name", opt_str name); ("description", opt_str desc);
                     ("status", opt_str status); ("priority", opt_num priority)]));
  data ← lift (id_and_url t);
  mret (json data).

Definition tag (id tag : string) : M World (option JSON) :=
  _ ← api "POST" (tag_path id tag) (Some (VObj []));
  mret (json acknowledged).

Definition untag (id tag : string) : M World (option JSON) :=
  _ ← api "DELETE" (tag_path id tag) None;
  mret (json acknowledged).

End Program.

End IndexJs.

(** A recorded call of [index.js] failed. *)
Definition failed_js (c : call) : Prop := is_error (IndexJs.api_result c.2) = true.

(** A computation stops at the first failed call: a failed call is the last
    call it issued, and the computation ended in an exception. *)
Definition fail_fast {World A} (m : M World A) : Prop :=
  ∀ w l1 c l2,
    calls (run m w) = l1 ++ c :: l2 → failed_js c →
    l2 = [] ∧ is_error (outcome (run m w)) = true.

(** Upstream as it answers a change of tags: 204 and no body. *)
Definition tag_table : list (string * option response) :=
  [ (API +:+ "/task/86a1/tag/urgent",
     Some {| status := 204; text := ""; json_body := None |}) ].

(** * Properties *)

(** ** How failures and calls travel through the monad *)

Section Propagation.

Context {World : Type}.

Lemma run_bind {A B} (m : M World A) (f : A → M World B) (w : World) :
  run (m ≫= f) w =
  match run m w with
  | (inl e, w1, l1) => (inl e, w1, l1)
  | (inr a, w1, l1) =>
      match run (f a) w1 with
      | (r, w2, l2) => (r, w2, l1 ++ l2)
      end
  end.
Proof. reflexivity. Qed.

Lemma run_par2 {A B} (a : M World A) (b : M World B) (w : World) :
  run (par2 a b) w =
  match run a w with
  | (ra, w1, l1) =>
      match run b w1 with
      | (rb, w2, l2) =>
          (match ra, rb with
           | inl e, _ => inl e
           | inr _, inl e => inl e
           | inr x, inr y => inr (x, y)
           end, w2, l1 ++ l2)
      end
  end.
Proof. reflexivity. Qed.

Lemma run_ret {A} (a : A) (w : World) : run (mret a : M World A) w = (ok a, w, []).
Proof. reflexivity. Qed.

Lemma run_lift {A} (r : result A) (w : World) : run (lift r : M World A) w = (r, w, []).
Proof. reflexivity. Qed.

Lemma run_fmap {A B} (g : A → B) (m : M World A) (w : World) :
  run (g <$> m) w = ((g <$> (run m w).1.1), (run m w).1.2, (run m w).2).
Proof. unfold run, fmap at 1, M_fmap. by destruct (m w) as [[r w1] l1]. Qed.

Lemma all_or_nothing_ret {A} (a : A) : all_or_nothing (mret a : M World A).
Proof. intros w H. inversion H. Qed.

Lemma all_or_nothing_lift {A} (r : result A) : all_or_nothing (lift r : M World A).
Proof. intros w H. inversion H. Qed.

Lemma all_or_nothing_bind {A B} (m : M World A) (f : A → M World B) :
  all_or_nothing m → (∀ a, all_or_nothing (f a)) → all_or_nothing (m ≫= f).
Proof.
  intros Hm Hf w. rewrite run_bind. specialize (Hm w).
  destruct (run m w) as [[[e|a] w1] l1]; simpl in *; [exact Hm|].
  specialize (Hf a w1).
  destruct (run (f a) w1) as [[r w2] l2]; simpl in *.
  rewrite Exists_app. intros [H1|H2]; [|auto].
  specialize (Hm H1). discriminate.
Qed.

Lemma all_or_nothing_fmap {A B} (g : A → B) (m : M World A) :
  all_or_nothing m → all_or_nothing (g <$> m).
Proof.
  intros Hm w. specialize (Hm w). unfold run, fmap, M_fmap in *.
  destruct (m w) as [[[e|a] w1] l1]; simpl in *; auto.
Qed.

Lemma all_or_nothing_par2 {A B} (a : M World A) (b : M World B) :
  all_or_nothing a → all_or_nothing b → all_or_nothing (par2 a b).
Proof.
  intros Ha Hb w. rewrite run_par2. specialize (Ha w).
  destruct (run a w) as [[ra w1] l1]. specialize (Hb w1).
  destruct (run b w1) as [[rb w2] l2]. simpl in *.
  rewrite Exists_app. intros [H1|H2].
  - specialize (Ha H1). destruct ra; [reflexivity|discriminate].
  - specialize (Hb H2). destruct ra, rb; try reflexivity; discriminate.
Qed.

Lemma all_or_nothing_par_all {A} (ms : list (M World A)) :
  Forall all_or_nothing ms → all_or_nothing (par_all ms).
Proof.
  induction 1 as [|m ms Hm _ IH]; simpl.
  - apply all_or_nothing_ret.
  - apply all_or_nothing_bind.
    + by apply all_or_nothing_par2.
    + intros p. apply all_or_nothing_ret.
Qed.

Lemma every_call_ret {A} (P : call → Prop) (a : A) : every_call P (mret a : M World A).
Proof. intros w. constructor. Qed.

Lemma every_call_lift {A} (P : call → Prop) (r : result A) :
  every_call P (lift r : M World A).
Proof. intros w. constructor. Qed.

Lemma every_call_bind {A B} (P : call → Prop) (m : M World A) (f : A → M World B) :
  every_call P m → (∀ a, every_call P (f a)) → every_call P (m ≫= f).
Proof.
  intros Hm Hf w. rewrite run_bind. specialize (Hm w).
  destruct (run m w) as [[[e|a] w1] l1]; cbn in *; [exact Hm|].
  specialize (Hf a w1). destruct (run (f a) w1) as [[r w2] l2]; cbn in *.
  by apply Forall_app.
Qed.

Lemma every_call_fmap {A B} (P : call → Prop) (g : A → B) (m : M World A) :
  every_call P m → every_call P (g <$> m).
Proof. intros Hm w. rewrite run_fmap. apply Hm. Qed.

Lemma every_call_par2 {A B} (P : call → Prop) (a : M World A) (b : M World B) :
  every_call P a → every_call P b → every_call P (par2 a b).
Proof.
  intros Ha Hb w. rewrite run_par2. specialize (Ha w).
  destruct (run a w) as [[ra w1] l1]. specialize (Hb w1).
  destruct (run b w1) as [[rb w2] l2]. cbn in *. by apply Forall_app.
Qed.

Lemma every_call_par_all {A} (P : call → Prop) (ms : list (M World A)) :
  Forall (every_call P) ms → every_call P (par_all ms).
Proof.
  induction 1 as [|m ms Hm _ IH]; cbn [par_all].
  - apply every_call_ret.
  - apply every_call_bind; [by apply every_call_par2|].
    intros p. apply every_call_ret.
Qed.

Section WithUpstream.

Variable fetch : request → World → option response * World.
Variable TOKEN : string.
Variable DEFAULT_TEAM : option string.

Lemma run_api (m path : string) (b : option value) (w : World) :
  run (api fetch TOKEN m path b) w =
  (api_result (fetch (mk_request TOKEN m path b) w).1,
   (fetch (mk_request TOKEN m path b) w).2,
   [(mk_request TOKEN m path b, (fetch (mk_request TOKEN m path b) w).1)]).
Proof. unfold run, api. by destruct (fetch _ w). Qed.

Lemma all_or_nothing_api (m path : string) (b : option value) :
  all_or_nothing (api fetch TOKEN m path b).
Proof.
  intros w. rewrite run_api. simpl. intros H.
  apply Exists_cons in H as [H|H]; [exact H|inversion H].
Qed.

Lemma every_call_api (P : call → Prop) (m path : string) (b : option value) :
  (∀ o, P (mk_request TOKEN m path b, o)) → every_call P (api fetch TOKEN m path b).
Proof. intros HP w. rewrite run_api. cbn. by repeat constructor. Qed.

Lemma all_or_nothing_space_entry (sp : value) :
  all_or_nothing (space_entry fetch TOKEN sp).
Proof.
  unfold space_entry.
  apply all_or_nothing_bind; [apply all_or_nothing_lift|intros sid].
  apply all_or_nothing_bind; [|intros p; apply all_or_nothing_lift].
  apply all_or_nothing_par2; apply all_or_nothing_api.
Qed.

Lemma all_or_nothing_space_entries (spacesRes : value) :
  all_or_nothing (space_entries fetch TOKEN spacesRes).
Proof.
  unfold space_entries.
  apply all_or_nothing_bind; [apply all_or_nothing_lift|intros sps].
  destruct (or_else sps (VArr [])); try apply all_or_nothing_lift.
  apply all_or_nothing_fmap, all_or_nothing_par_all.
  apply Forall_fmap, Forall_forall. intros sp _.
  apply all_or_nothing_space_entry.
Qed.

Lemma all_or_nothing_hierarchy (team : option string) :
  all_or_nothing (hierarchy fetch TOKEN DEFAULT_TEAM team).
Proof.
  unfold hierarchy.
  destruct (negb _); [apply all_or_nothing_lift|].
  apply all_or_nothing_bind.
  { apply all_or_nothing_par2; apply all_or_nothing_api. }
  intros p. apply all_or_nothing_bind.
  { apply all_or_nothing_space_entries. }
  intros spaces. apply all_or_nothing_bind; [apply all_or_nothing_lift|].
  intros members. apply all_or_nothing_ret.
Qed.

End WithUpstream.

End Propagation.

(** ** The HTTP wrapper *)

Section Api.

Context {World : Type}.
Variable fetch : request → World → option response * World.
Variable TOKEN : string.

(** C7 (amended).  A call through [api] that receives an HTTP response fails
    with the error whose message is the status, a colon and the raw body
    text exactly when the status is outside 200..299.  With a status inside
    the range, 204 yields the empty object; any other status yields the
    parsed body when the body is JSON, and fails with the parser's error
    when it is not.  So the call fails exactly when the status is outside
    the range or the status is not 204 and the body is not JSON. *)
Theorem api_outcome (m path : string) (b : option value) (w w' : World) (res : response) :
  fetch (mk_request TOKEN m path b) w = (Some res, w') →
  let r := outcome (run (api fetch TOKEN m path b) w) in
  (r = throw (Error (pretty (status res) +:+ ": " +:+ text res))
   ↔ ¬ (200 ≤ status res ≤ 299))
  ∧ (200 ≤ status res ≤ 299 → status res = 204 → r = ok (VObj []))
  ∧ (200 ≤ status res ≤ 299 → status res ≠ 204 →
     r = match json_body res with
         | Some v => ok v
         | None => throw SyntaxError
         end)
  ∧ (is_error r = true
     ↔ ¬ (200 ≤ status res ≤ 299) ∨ (status res ≠ 204 ∧ json_body res = None))
  ∧ calls (run (api fetch TOKEN m path b) w) = [(mk_request TOKEN m path b, Some res)].
Proof.
  intros Hf r. subst r. rewrite run_api, Hf. cbn [outcome calls fst snd].
  unfold api_result, res_ok.
  destruct (Z.leb_spec 200 (status res)), (Z.leb_spec (status res) 299);
    cbn [andb negb is_error];
    try (split_and!; [split; [lia|done]|lia..|split; [left; lia|done]|done]).
  destruct (Z.eqb_spec (status res) 204).
  - split_and!; [split; [discriminate|lia]|done|done| |done].
    cbn. split; [discriminate|]. intros [?|[? _]]; [lia|done].
  - split_and!; [split; [|lia]|done|done| |done].
    + destruct (json_body res); discriminate.
    + destruct (json_body res); cbn.
      * split; [discriminate|]. intros [?|[_ ?]]; [lia|discriminate].
      * split; [by right|done].
Qed.

End Api.

(** A 404 fails with its status and body; a 204 yields the empty object. *)
Lemma api_outcome_witness :
  outcome (run (api (table_fetch crud_table) "pk_test" "DELETE" "/task/nope" None) tt)
  = throw (Error "404: Task not found")
  ∧ outcome (run (api (table_fetch crud_table) "pk_test" "DELETE" "/task/86a2" None) tt)
    = ok (VObj []).
Proof.
  split.
  - apply (api_outcome (table_fetch crud_table) "pk_test" "DELETE" "/task/nope" None tt tt
             {| status := 404; text := "Task not found"; json_body := None |}
             eq_refl).
    cbn. lia.
  - apply (api_outcome (table_fetch crud_table) "pk_test" "DELETE" "/task/86a2" None tt tt
             {| status := 204; text := ""; json_body := None |} eq_refl);
      cbn; lia.
Defined.

(** C7 as stated fails: a status inside 200..299 with a body that is not
    JSON (here 200 with an empty body) makes the call fail. *)
Lemma api_success_status_counterexample :
  let res := {| status := 200; text := ""; json_body := None |} in
  table_fetch crud_table
    (mk_request "pk_test" "POST" "/task/86a1/tag/urgent" (Some (VObj []))) tt
  = (Some res, tt)
  ∧ 200 ≤ status res ≤ 299
  ∧ outcome (run (api (table_fetch crud_table) "pk_test" "POST" "/task/86a1/tag/urgent"
                    (Some (VObj []))) tt)
    = throw SyntaxError.
Proof. cbn. split_and!; [reflexivity|lia|lia|reflexivity]. Qed.

(** ** Shaping: inversion lemmas *)

(** Destructs the head of a chain of binds in the exception monad. *)
Ltac bind_inv H :=
  match type of H with
  | mbind _ ?r = inr _ =>
      let E := fresh "E" in
      destruct r eqn:E; cbn [mbind result_bind] in H; [discriminate H|]
  end.

Lemma mapM_ok_Forall2 {A B} (f : A → result B) (l : list A) (k : list B) :
  mapM f l = ok k → Forall2 (λ x y, f x = ok y) l k.
Proof.
  revert k. induction l as [|x l IH]; intros k H; cbn in H.
  - injection H as <-. constructor.
  - destruct (f x) as [e|y] eqn:Hx; cbn in H; [discriminate|].
    destruct (mapM f l) as [e|k'] eqn:Hl; cbn in H; [discriminate|].
    injection H as <-. constructor; auto.
Qed.

Lemma Forall2_mapM_ok {A B} (f : A → result B) (l : list A) (k : list B) :
  Forall2 (λ x y, f x = ok y) l k → mapM f l = ok k.
Proof.
  induction 1 as [|x y l k Hx _ IH]; [reflexivity|].
  cbn. fold (mapM f l). by rewrite Hx, IH.
Qed.

Lemma js_map_ok_inv (f : value → result value) (v r : value) :
  js_map f v = ok r →
  ∃ l k, v = VArr l ∧ r = VArr k ∧ Forall2 (λ x y, f x = ok y) l k.
Proof.
  destruct v; cbn; try discriminate. intros H.
  destruct (mapM f elems) as [e|k] eqn:Hk; cbn in H; [discriminate|].
  injection H as <-. exists elems, k. split_and!; [done..|].
  by apply mapM_ok_Forall2.
Qed.

Lemma stringify_VArr (l : list value) :
  stringify (VArr l) = Some (JArr (written <$> l)).
Proof. reflexivity. Qed.

Lemma shape_due_no_due_date (t : value) : no_due_date t → shape_due t = ok VNull.
Proof. unfold shape_due. by intros [-> | ->]. Qed.

Lemma get_ok_not_nullish (t v : value) (k : string) : get t k = ok v → nullish t = false.
Proof. by destruct t. Qed.

Lemma get_total (t : value) (k : string) : nullish t = false → ∃ v, get t k = ok v.
Proof. destruct t; cbn; try discriminate; eauto. Qed.

Lemma get_opt_total (t : value) (k : string) : ∃ v, get_opt t k = ok v.
Proof. unfold get_opt. destruct t; cbn; eauto. Qed.

(** Looking a key up behind properties that [JSON.stringify] may or may not
    have kept. *)
Lemma lookup_field_omap_skip (k k' : string) (x : value) (fs : list (string * value)) :
  k ≠ k' →
  lookup_field k (omap (λ kv, match kv with (a, y) => pair a <$> stringify y end)
                    ((k', x) :: fs))
  = lookup_field k (omap (λ kv, match kv with (a, y) => pair a <$> stringify y end) fs).
Proof.
  intros Hne. cbn. destruct (stringify x); cbn; [|done].
  by destruct (String.eqb_spec k k').
Qed.

Lemma lookup_field_omap_here (k : string) (x : value) (fs : list (string * value)) :
  lookup_field k (omap (λ kv, match kv with (a, y) => pair a <$> stringify y end)
                    ((k, x) :: fs))
  = match stringify x with
    | Some j => Some j
    | None => lookup_field k (omap (λ kv, match kv with (a, y) => pair a <$> stringify y end) fs)
    end.
Proof. cbn. destruct (stringify x); cbn; [|done]. by rewrite String.eqb_refl. Qed.

Lemma jfield_written_VObj (k : string) (fs : list (string * value)) :
  jfield k (written (VObj fs))
  = lookup_field k (omap (λ kv, match kv with (a, y) => pair a <$> stringify y end) fs).
Proof. reflexivity. Qed.

(** Rewrites a lookup in a stringified object literal down to the property
    looked for. *)
Ltac kept_lookup :=
  rewrite jfield_written_VObj;
  repeat first [ rewrite lookup_field_omap_skip by discriminate
               | rewrite lookup_field_omap_here; cbn [stringify] ].

Lemma shape_search_task_due (t v : value) :
  shape_search_task t = ok v → no_due_date t → jfield "due" (written v) = Some JNull.
Proof.
  unfold shape_search_task. intros H Hd.
  rewrite (shape_due_no_due_date t Hd) in H.
  repeat bind_inv H. cbn in H. injection H as <-.
  by kept_lookup.
Qed.

Lemma shape_task_due (t v : value) :
  shape_task t = ok v → no_due_date t → jfield "due" (written v) = Some JNull.
Proof.
  unfold shape_task. intros H Hd.
  rewrite (shape_due_no_due_date t Hd) in H.
  repeat bind_inv H. cbn in H. injection H as <-.
  by kept_lookup.
Qed.

(** ** Resolution of the team: [team || DEFAULT_TEAM] *)

Lemma or_else_usable (team : option string) (t : string) (d : value) :
  usable team t → or_else (opt_str team) d = VStr t.
Proof.
  intros [-> Hne]. unfold or_else. cbn.
  by destruct (String.eqb_spec t "").
Qed.

Lemma or_else_unusable (team : option string) (d : value) :
  unusable team → or_else (opt_str team) d = d.
Proof. by intros [-> | ->]. Qed.

Lemma truthy_unusable (o : option string) : unusable o → truthy (opt_str o) = false.
Proof. by intros [-> | ->]. Qed.

Lemma truthy_usable (o : option string) (t : string) :
  usable o t → truthy (opt_str o) = true.
Proof. intros [-> Hne]. cbn. by destruct (String.eqb_spec t ""). Qed.

Lemma resolved_team (DEFAULT_TEAM team : option string) (t : string) :
  usable team t ∨ (unusable team ∧ usable DEFAULT_TEAM t) →
  or_else (opt_str team) (opt_str DEFAULT_TEAM) = VStr t ∧ t ≠ "".
Proof.
  intros [Hu | [Hn Hu]].
  - split; [by apply or_else_usable|by destruct Hu].
  - rewrite or_else_unusable by done. by destruct Hu as [-> Hne].
Qed.

(** ** The hierarchy tool *)

Section Hierarchy.

Context {World : Type}.
Variable fetch : request → World → option response * World.
Variable TOKEN : string.
Variable DEFAULT_TEAM : option string.

Lemma space_entry_urls (sp : value) (w : World) :
  (url ∘ fst) <$> calls (run (space_entry fetch TOKEN sp) w) = space_urls sp.
Proof.
  unfold space_entry, space_urls. rewrite run_bind.
  unfold lift at 1, run at 1.
  destruct (get sp "id") as [e|sid]; [reflexivity|].
  rewrite run_bind, run_par2, !run_api. simpl.
  destruct (api_result _); [reflexivity|].
  destruct (api_result _); reflexivity.
Qed.

Lemma par_all_space_urls (l : list value) (w : World) :
  (url ∘ fst) <$> calls (run (par_all (space_entry fetch TOKEN <$> l)) w)
  = l ≫= space_urls.
Proof.
  revert w. induction l as [|sp l IH]; intros w; [reflexivity|].
  simpl. rewrite run_bind, run_par2.
  pose proof (space_entry_urls sp w) as Hsp.
  destruct (run (space_entry fetch TOKEN sp) w) as [[ra w1] l1].
  specialize (IH w1).
  destruct (run (par_all _) w1) as [[rb w2] l2]. simpl in *.
  destruct ra, rb; simpl; rewrite ?app_nil_r, fmap_app, Hsp, IH; reflexivity.
Qed.

(** When the team is resolved and the first two calls succeed, the two calls
    of every space listed upstream are issued, in the order of the list,
    whatever their answers. *)
Lemma hierarchy_issues_every_space_call (team : option string) (t : string)
    (w : World) (teamInfo spacesRes : value) (l : list value) :
  or_else (opt_str team) (opt_str DEFAULT_TEAM) = VStr t → t ≠ "" →
  let r1 := fetch (mk_request TOKEN "GET" ("/team/" +:+ t) None) w in
  let r2 := fetch (mk_request TOKEN "GET" ("/team/" +:+ t +:+ "/space?archived=false") None) r1.2 in
  api_result r1.1 = ok teamInfo →
  api_result r2.1 = ok spacesRes →
  get spacesRes "spaces" = ok (VArr l) →
  (url ∘ fst) <$> calls (run (hierarchy fetch TOKEN DEFAULT_TEAM team) w)
  = [API +:+ "/team/" +:+ t; API +:+ "/team/" +:+ t +:+ "/space?archived=false"]
    ++ (l ≫= space_urls).
Proof.
  intros Ht Hne r1 r2 H1 H2 Hsp. unfold hierarchy. rewrite Ht.
  cbn [truthy ToString]. destruct (String.eqb_spec t ""); [done|].
  cbn [negb]. rewrite run_bind, run_par2, !run_api. fold r1. fold r2.
  rewrite H1, H2. cbn [fst snd].
  rewrite run_bind. unfold space_entries at 1.
  rewrite run_bind, run_lift, Hsp. cbn [or_else truthy].
  rewrite run_fmap.
  pose proof (par_all_space_urls l r2.2) as Hl.
  destruct (run (par_all _) r2.2) as [[[e|vs] w3] l3]; cbn in Hl |- *.
  - by rewrite Hl.
  - rewrite run_bind, run_lift.
    destruct (team_members teamInfo); cbn; by rewrite ?app_nil_r, Hl.
Qed.

Lemma space_entries_about_spaces (spacesRes : value) :
  every_call about_a_space (space_entries fetch TOKEN spacesRes).
Proof.
  unfold space_entries. apply every_call_bind; [apply every_call_lift|intros sps].
  destruct (or_else sps (VArr [])); try apply every_call_lift.
  apply every_call_fmap, every_call_par_all, Forall_fmap, Forall_forall.
  intros sp _. unfold space_entry.
  apply every_call_bind; [apply every_call_lift|intros sid].
  apply every_call_bind; [|intros ?; apply every_call_lift].
  apply every_call_par2; apply every_call_api; intros o.
  - by exists (ToString sid +:+ "/folder?archived=false").
  - by exists (ToString sid +:+ "/list?archived=false").
Qed.

(** The calls of the hierarchy tool for a resolved team: the team detail,
    the spaces of the team, then calls about spaces only. *)
Lemma hierarchy_calls (team : option string) (w : World) (t : string) :
  or_else (opt_str team) (opt_str DEFAULT_TEAM) = VStr t → t ≠ "" →
  ∃ o1 o2 rest,
    calls (run (hierarchy fetch TOKEN DEFAULT_TEAM team) w)
    = (mk_request TOKEN "GET" ("/team/" +:+ t) None, o1)
      :: (mk_request TOKEN "GET" ("/team/" +:+ t +:+ "/space?archived=false") None, o2)
      :: rest
    ∧ Forall about_a_space rest.
Proof.
  intros Hres Hne. unfold hierarchy. rewrite Hres.
  cbn [truthy ToString]. destruct (String.eqb_spec t ""); [done|]. cbn [negb].
  rewrite run_bind, run_par2, !run_api. cbn [fst snd].
  destruct (api_result _) as [e1|v1]; [cbn; by eexists _, _, []|].
  destruct (api_result _) as [e2|v2]; [cbn; by eexists _, _, []|].
  cbn [fst snd].
  match goal with
  | |- context [run ?m ?w2] =>
      assert (every_call about_a_space m) as Hall
  end.
  { apply every_call_bind; [apply space_entries_about_spaces|intros spaces].
    apply every_call_bind; [apply every_call_lift|intros members].
    apply every_call_ret. }
  match goal with
  | |- context [run ?m ?w2] => specialize (Hall w2); destruct (run m w2) as [[r w3] l3]
  end.
  cbn in *. by eexists _, _, l3.
Qed.

(** C1.  In a run of the hierarchy tool, as soon as one of the calls that
    were issued failed (the team-detail call, the spaces call, or the folder
    or list call of any space) the invocation ends in an exception: no
    result, partial or not, is returned.  In particular this holds when the
    failed call is the folder call of a single space. *)
Theorem hierarchy_fails_when_a_call_fails (team : option string) (w : World) (c : call) :
  c ∈ calls (run (hierarchy fetch TOKEN DEFAULT_TEAM team) w) →
  failed c →
  ∃ e, outcome (run (hierarchy fetch TOKEN DEFAULT_TEAM team) w) = inl e.
Proof.
  intros Hin Hc.
  assert (Hex : Exists failed (calls (run (hierarchy fetch TOKEN DEFAULT_TEAM team) w))).
  { apply Exists_exists. exists c. split; [exact Hin|exact Hc]. }
  apply all_or_nothing_hierarchy in Hex.
  destruct (outcome _) as [e|v]; [by exists e|discriminate].
Qed.

Lemma mapM_shape_member (mvs : list value) (ms : list Member) :
  Forall2 is_member mvs ms → mapM shape_member mvs = ok (member_shaped <$> ms).
Proof.
  intros H. apply Forall2_mapM_ok, Forall2_fmap_r.
  eapply Forall2_impl; [exact H|].
  intros mv m (u & Hu & Hi & Hn & He). unfold shape_member.
  rewrite Hu. cbn [mbind result_bind]. by rewrite Hi, Hn, He.
Qed.

Lemma is_member_member_value (m : Member) : is_member (member_value m) m.
Proof. by eexists. Qed.

Lemma written_member_shaped (ms : list Member) :
  written <$> (member_shaped <$> ms) = member_json <$> ms.
Proof. rewrite <- list_fmap_compose. by apply list_fmap_ext. Qed.

(** C8.  For a resolved team whose team-detail and spaces calls succeed,
    whose spaces answer lists no space (an empty [spaces], or none at all)
    and whose team detail carries members of the declared shape (a [user]
    with [id], [username] and [email], whatever else it holds), the
    hierarchy tool issues these two calls only and returns
    [{spaces: [], members: [...]}], with one entry [{id, name, email}] per
    member, in order. *)
Theorem hierarchy_zero_spaces (team : option string) (w : World)
    (teamInfo spacesRes tm sps : value) (mvs : list value) (ms : list Member) :
  let teamId := or_else (opt_str team) (opt_str DEFAULT_TEAM) in
  let req1 := mk_request TOKEN "GET" ("/team/" +:+ ToString teamId) None in
  let req2 := mk_request TOKEN "GET"
                ("/team/" +:+ ToString teamId +:+ "/space?archived=false") None in
  let r1 := fetch req1 w in
  let r2 := fetch req2 r1.2 in
  truthy teamId = true →
  api_result r1.1 = ok teamInfo →
  api_result r2.1 = ok spacesRes →
  get spacesRes "spaces" = ok sps →
  or_else sps (VArr []) = VArr [] →
  get teamInfo "team" = ok tm →
  get tm "members" = ok (VArr mvs) →
  Forall2 is_member mvs ms →
  run (hierarchy fetch TOKEN DEFAULT_TEAM team) w
  = (ok (Some (JObj [("spaces", JArr []);
                     ("members", JArr (member_json <$> ms))])),
     r2.2, [(req1, r1.1); (req2, r2.1)]).
Proof.
  intros teamId req1 req2 r1 r2 Htr H1 H2 Hsp Hor Htm Hms Hmem.
  unfold hierarchy. fold teamId. rewrite Htr. cbn [negb].
  rewrite run_bind, run_par2, !run_api. fold req1. fold r1. fold req2. fold r2.
  rewrite H1, H2. cbn [fst snd].
  rewrite run_bind. unfold space_entries at 1.
  rewrite run_bind, run_lift, Hsp, Hor, run_fmap. cbn.
  rewrite run_bind, run_lift.
  unfold team_members. rewrite Htm. cbn [mbind result_bind].
  unfold get_opt. rewrite (get_ok_not_nullish _ _ _ Hms), Hms.
  cbn [mbind result_bind or_else truthy js_map].
  rewrite (mapM_shape_member _ _ Hmem). cbn.
  by rewrite written_member_shaped.
Qed.

End Hierarchy.

(** The folder call of the second of three spaces answers 500: the whole
    invocation fails, with that answer as its message. *)
Lemma hierarchy_fails_when_a_call_fails_witness :
  ∃ e, outcome (run (hierarchy (table_fetch three_spaces) "pk_test" None (Some "T")) tt)
       = inl e.
Proof.
  apply (hierarchy_fails_when_a_call_fails (table_fetch three_spaces) "pk_test" None
           (Some "T") tt
           (mk_request "pk_test" "GET" (folder_path (VStr "s2")) None,
            refusal 500 "upstream unavailable")).
  - apply list_elem_of_In. vm_compute. do 4 right. left. reflexivity.
  - reflexivity.
Defined.

(** A team with two members and no space. *)
Lemma hierarchy_zero_spaces_witness :
  outcome (run (hierarchy (table_fetch empty_team) "pk_test" None (Some "T")) tt)
  = ok (Some (JObj [("spaces", JArr []);
                    ("members", JArr (member_json <$> two_members))])).
Proof.
  rewrite (hierarchy_zero_spaces (table_fetch empty_team) "pk_test" None (Some "T") tt
             (VObj [("team", VObj [("id", VStr "T");
                                   ("members", VArr (member_value <$> two_members))])])
             (VObj [("spaces", VArr [])])
             (VObj [("id", VStr "T"); ("members", VArr (member_value <$> two_members))])
             (VArr []) (member_value <$> two_members) two_members);
    try reflexivity.
  apply Forall2_fmap_l, Forall_Forall2_diag, Forall_forall.
  intros m _. apply is_member_member_value.
Defined.

(** ** The search tool *)

Section Search.

Context {World : Type}.
Variable fetch : request → World → option response * World.
Variable TOKEN : string.
Variable DEFAULT_TEAM : option string.

Lemma run_search (q : string) (team : option string)
    (assignee due_before due_after : option Z) (w : World) :
  run (search fetch TOKEN DEFAULT_TEAM q team assignee due_before due_after) w =
  let teamId := or_else (opt_str team) (opt_str DEFAULT_TEAM) in
  if truthy teamId then
    let req := search_request TOKEN teamId q assignee due_before due_after in
    (res ← api_result (fetch req w).1; tasks ← search_tasks res; ok (json tasks),
     (fetch req w).2, [(req, (fetch req w).1)])
  else (throw team_required, w, []).
Proof.
  unfold search. cbv zeta. destruct (truthy _); cbn [negb]; [|reflexivity].
  rewrite run_bind, run_api. fold (search_request TOKEN (or_else (opt_str team) (opt_str DEFAULT_TEAM)) q assignee due_before due_after).
  destruct (api_result _) as [e|res]; cbn; [reflexivity|].
  rewrite run_bind, run_lift.
  destruct (search_tasks res); cbn; by rewrite ?app_nil_r.
Qed.

Lemma search_tasks_ok_inv (res v : value) :
  search_tasks res = ok v →
  ∃ tasks_field found shaped,
    get res "tasks" = ok tasks_field ∧
    or_else tasks_field (VArr []) = VArr found ∧
    Forall2 (λ t s, shape_search_task t = ok s) (take 20 found) shaped ∧
    v = VArr shaped.
Proof.
  unfold search_tasks. intros H. bind_inv H. bind_inv H.
  apply js_map_ok_inv in H as (l & k & -> & -> & Hlk).
  destruct (or_else v0 (VArr [])) eqn:Hor; cbn in E0; try discriminate.
  injection E0 as <-. by exists v0, elems, k.
Qed.

(** C2.  When the search tool returns, its result is an array built from the
    first twenty elements of the task list found in the upstream answer
    ([tasks], or the empty list when the answer has none), one item per task
    and in the same order: it never has more than twenty items, however many
    tasks upstream returned. *)
Theorem search_returns_at_most_20 (q : string) (team : option string)
    (assignee due_before due_after : option Z) (w : World) (out : option JSON) :
  outcome (run (search fetch TOKEN DEFAULT_TEAM q team assignee due_before due_after) w)
  = ok out →
  ∃ req o res tasks_field found shaped,
    calls (run (search fetch TOKEN DEFAULT_TEAM q team assignee due_before due_after) w)
    = [(req, o)] ∧
    api_result o = ok res ∧
    get res "tasks" = ok tasks_field ∧
    or_else tasks_field (VArr []) = VArr found ∧
    Forall2 (λ t s, shape_search_task t = ok s) (take 20 found) shaped ∧
    out = Some (JArr (written <$> shaped)) ∧
    (length shaped ≤ 20)%nat ∧
    length shaped = Nat.min 20 (length found).
Proof.
  rewrite run_search. cbv zeta. destruct (truthy _); [|discriminate].
  cbn [outcome calls fst snd]. intros H. bind_inv H. bind_inv H.
  injection H as <-.
  apply search_tasks_ok_inv in E0 as (tf & found & shaped & Hget & Hor & Hsh & ->).
  eexists _, _, v, tf, found, shaped. split_and!; try done.
  - apply Forall2_length in Hsh. rewrite <- Hsh, length_take. lia.
  - apply Forall2_length in Hsh. by rewrite <- Hsh, length_take.
Qed.

Lemma search_params_drop_zero (q : string) (assignee due_before due_after : option Z) :
  search_params q assignee due_before due_after
  = search_params q (drop_zero assignee) (drop_zero due_before) (drop_zero due_after).
Proof.
  unfold search_params.
  assert (Hz : ∀ k (o : option Z) ps,
             append_if k (opt_num o) ps = append_if k (opt_num (drop_zero o)) ps).
  { intros k [[| |]|] ps; reflexivity. }
  by rewrite (Hz _ assignee), (Hz _ due_before), (Hz _ due_after).
Qed.

(** The parameters of [search] are the text, then filters that do not
    depend on it. *)
Lemma search_params_cons (assignee due_before due_after : option Z) :
  ∃ filters, ∀ q,
    search_params q assignee due_before due_after = ("query", q) :: filters.
Proof.
  unfold search_params, append_if.
  destruct (truthy (opt_num assignee)), (truthy (opt_num due_before)),
    (truthy (opt_num due_after)); eexists; intros q; reflexivity.
Qed.

(** The names of the parameters, in the order of the query string. *)
Lemma search_params_keys (q : string) (assignee due_before due_after : option Z) :
  (fst <$> search_params q assignee due_before due_after)
  = "query" :: sent_key "assignees[]" assignee ++ sent_key "due_date_lt" due_before
      ++ sent_key "due_date_gt" due_after.
Proof.
  unfold search_params, append_if, sent_key.
  destruct assignee as [[| |]|], due_before as [[| |]|], due_after as [[| |]|];
    reflexivity.
Qed.

(** The query string of a search without filter. *)
Lemma query_only (q : string) :
  URLSearchParams_toString [("query", q)] = "query=" +:+ form_encode q.
Proof. reflexivity. Qed.

(** The one call of a search whose team is resolved. *)
Lemma search_calls (q : string) (team : option string)
    (assignee due_before due_after : option Z) (w : World) (t : string) :
  or_else (opt_str team) (opt_str DEFAULT_TEAM) = VStr t → t ≠ "" →
  ∃ o,
    calls (run (search fetch TOKEN DEFAULT_TEAM q team assignee due_before due_after) w)
    = [(mk_request TOKEN "GET"
          ("/team/" +:+ t +:+ "/task?"
             +:+ URLSearchParams_toString (search_params q assignee due_before due_after))
          None, o)].
Proof.
  intros Hres Hne. rewrite run_search. cbv zeta. rewrite Hres.
  cbn [truthy]. destruct (String.eqb_spec t ""); [done|]. cbn [negb calls snd].
  eexists. reflexivity.
Qed.

(** C10.  A search whose [assignee], [due_before] or [due_after] argument is
    0 runs exactly as the search without that argument, and the filter is
    left out of the query string entirely.  The query string of the one
    request is the serialisation of parameters whose names are [query] and,
    in this order, [assignees[]], [due_date_lt] and [due_date_gt] for those
    of the three arguments that are supplied and not 0, and no other name;
    when each of the three is 0 or not supplied, the query string is
    [query=] and the escaped text, nothing more.  So the request, the answer
    and the result are those of the search without the argument. *)
Theorem search_zero_filter_is_no_filter (q : string) (team : option string)
    (assignee due_before due_after : option Z) (w : World) :
  (fst <$> search_params q assignee due_before due_after)
  = "query" :: sent_key "assignees[]" assignee ++ sent_key "due_date_lt" due_before
      ++ sent_key "due_date_gt" due_after
  ∧ search_params q assignee due_before due_after
    = search_params q (drop_zero assignee) (drop_zero due_before) (drop_zero due_after)
  ∧ run (search fetch TOKEN DEFAULT_TEAM q team assignee due_before due_after) w
    = run (search fetch TOKEN DEFAULT_TEAM q team
             (drop_zero assignee) (drop_zero due_before) (drop_zero due_after)) w
  ∧ (∀ t : string,
       usable team t ∨ (unusable team ∧ usable DEFAULT_TEAM t) →
       (∃ params o,
           calls (run (search fetch TOKEN DEFAULT_TEAM q team
                         assignee due_before due_after) w)
           = [(mk_request TOKEN "GET"
                 ("/team/" +:+ t +:+ "/task?" +:+ URLSearchParams_toString params)
                 None, o)]
           ∧ params !! 0%nat = Some ("query", q)
           ∧ (fst <$> params)
             = "query" :: sent_key "assignees[]" assignee
                 ++ sent_key "due_date_lt" due_before
                 ++ sent_key "due_date_gt" due_after)
       ∧ (drop_zero assignee = None → drop_zero due_before = None →
          drop_zero due_after = None →
          ∃ o,
            calls (run (search fetch TOKEN DEFAULT_TEAM q team
                          assignee due_before due_after) w)
            = [(mk_request TOKEN "GET"
                  ("/team/" +:+ t +:+ "/task?query=" +:+ form_encode q) None, o)])).
Proof.
  split_and!.
  - apply search_params_keys.
  - apply search_params_drop_zero.
  - unfold search. by rewrite <- search_params_drop_zero.
  - intros t Ht.
    destruct (resolved_team DEFAULT_TEAM team t Ht) as [Hres Hne].
    destruct (search_calls q team assignee due_before due_after w t Hres Hne)
      as [o Ho].
    split.
    + exists (search_params q assignee due_before due_after), o.
      split_and!; [exact Ho| |apply search_params_keys].
      destruct (search_params_cons assignee due_before due_after) as [filters Hf].
      by rewrite Hf.
    + intros Ha Hb Hc. exists o.
      rewrite Ho, search_params_drop_zero, Ha, Hb, Hc. reflexivity.
Qed.

End Search.

(** A search for "report" with an assignee of 0 and a due date of 0: the
    request is the one of the search without filters. *)
Lemma search_zero_filter_is_no_filter_witness :
  ∃ o, calls (run (search (table_fetch search_table) "pk_test" None "report" (Some "T")
                     (Some 0) (Some 0) None) tt)
       = [(mk_request "pk_test" "GET" "/team/T/task?query=report" None, o)].
Proof.
  destruct (search_zero_filter_is_no_filter (table_fetch search_table) "pk_test" None
              "report" (Some "T") (Some 0) (Some 0) None tt) as (_ & _ & _ & H).
  destruct (H "T") as [_ Hzero].
  { left. split; [reflexivity|discriminate]. }
  destruct (Hzero eq_refl eq_refl eq_refl) as [o Ho].
  exists o. exact Ho.
Defined.

(** Twenty-five matches upstream, twenty items returned. *)
Lemma search_returns_at_most_20_witness :
  ∃ shaped, outcome (run (search (table_fetch search_table) "pk_test" None
                            "report" (Some "T") None None None) tt)
            = ok (Some (JArr (written <$> shaped)))
            ∧ length shaped = 20%nat.
Proof.
  edestruct (search_returns_at_most_20 (table_fetch search_table) "pk_test" None
               "report" (Some "T") None None None tt)
    as (req & o & res & tf & found & shaped & Hc & Ho & Hg & Hf & Hs & Hout & _ & Hlen).
  { vm_compute. reflexivity. }
  exists shaped. split.
  - rewrite <- Hout. vm_compute. reflexivity.
  - rewrite Hlen. vm_compute in Hc. injection Hc as _ <-.
    vm_compute in Ho. injection Ho as <-.
    vm_compute in Hg. injection Hg as <-.
    vm_compute in Hf. injection Hf as <-.
    reflexivity.
Defined.
Section TeamResolution.

Context {World : Type}.
Variable fetch : request → World → option response * World.
Variable TOKEN : string.
Variable DEFAULT_TEAM : option string.

Lemma run_hierarchy_unresolved (team : option string) (w : World) :
  truthy (or_else (opt_str team) (opt_str DEFAULT_TEAM)) = false →
  run (hierarchy fetch TOKEN DEFAULT_TEAM team) w = (throw team_required, w, []).
Proof. intros H. unfold hierarchy. by rewrite H. Qed.

(** C4 (amended).  In the hierarchy and search tools a team supplied by the
    caller that is not the empty string is the team of the upstream calls,
    whatever the process-wide default; when the caller supplies none, or the
    empty string, a non-empty default is used.  The hierarchy tool asks for
    the detail and for the spaces of that team, and every later call is about
    a space; the one call of the search tool asks for the tasks of that team.
    When neither a non-empty caller value nor a non-empty default exists, the
    invocation fails with the error "team required (or set CLICKUP_TEAM_ID)"
    without having issued any call and without any effect on the upstream. *)
Theorem team_resolution (team : option string) (q : string)
    (assignee due_before due_after : option Z) (w : World) :
  (∀ t : string,
      usable team t ∨ (unusable team ∧ usable DEFAULT_TEAM t) →
      (∃ o1 o2 rest,
          calls (run (hierarchy fetch TOKEN DEFAULT_TEAM team) w)
          = (mk_request TOKEN "GET" ("/team/" +:+ t) None, o1)
            :: (mk_request TOKEN "GET" ("/team/" +:+ t +:+ "/space?archived=false") None,
                o2)
            :: rest
          ∧ Forall about_a_space rest)
      ∧ (∃ filters o,
          calls (run (search fetch TOKEN DEFAULT_TEAM q team assignee due_before due_after) w)
          = [(mk_request TOKEN "GET"
                ("/team/" +:+ t +:+ "/task?"
                   +:+ URLSearchParams_toString (("query", q) :: filters)) None, o)]))
  ∧ (unusable team → unusable DEFAULT_TEAM →
     run (hierarchy fetch TOKEN DEFAULT_TEAM team) w = (throw team_required, w, [])
     ∧ run (search fetch TOKEN DEFAULT_TEAM q team assignee due_before due_after) w
       = (throw team_required, w, [])).
Proof.
  split.
  - intros t Ht. destruct (resolved_team DEFAULT_TEAM team t Ht) as [Hres Hne].
    split.
    + by apply hierarchy_calls.
    + destruct (search_params_cons assignee due_before due_after) as [filters Hf].
      destruct (search_calls fetch TOKEN DEFAULT_TEAM q team assignee due_before
                  due_after w t Hres Hne) as [o Ho].
      exists filters, o. by rewrite Ho, Hf.
  - intros Hn Hd.
    assert (Hf : truthy (or_else (opt_str team) (opt_str DEFAULT_TEAM)) = false).
    { rewrite or_else_unusable by done. by apply truthy_unusable. }
    split; [by apply run_hierarchy_unresolved|].
    rewrite run_search. cbv zeta. by rewrite Hf.
Qed.

End TeamResolution.

(** With the default team ["D"]: a caller who supplies ["T"] reaches team
    ["T"] in both tools; a caller who supplies none, or the empty string,
    reaches team ["D"]; and without a default the empty string is refused. *)
Lemma team_resolution_witness :
  (∃ o1 o2 rest,
      calls (run (hierarchy (table_fetch three_spaces) "pk_test" (Some "D") (Some "T")) tt)
      = (mk_request "pk_test" "GET" "/team/T" None, o1)
        :: (mk_request "pk_test" "GET" "/team/T/space?archived=false" None, o2)
        :: rest)
  ∧ (∃ filters o,
      calls (run (search (table_fetch search_table) "pk_test" (Some "D")
                    "report" (Some "T") None None None) tt)
      = [(mk_request "pk_test" "GET"
            ("/team/T/task?" +:+ URLSearchParams_toString (("query", "report") :: filters))
            None, o)])
  ∧ (∃ o1 o2 rest,
      calls (run (hierarchy (table_fetch three_spaces) "pk_test" (Some "D") None) tt)
      = (mk_request "pk_test" "GET" "/team/D" None, o1)
        :: (mk_request "pk_test" "GET" "/team/D/space?archived=false" None, o2)
        :: rest)
  ∧ (∃ filters o,
      calls (run (search (table_fetch search_table) "pk_test" (Some "D")
                    "report" (Some "") None None None) tt)
      = [(mk_request "pk_test" "GET"
            ("/team/D/task?" +:+ URLSearchParams_toString (("query", "report") :: filters))
            None, o)])
  ∧ run (hierarchy (table_fetch search_table) "pk_test" None (Some "")) tt
    = (throw team_required, tt, []).
Proof.
  assert (Hcaller : usable (Some "T") "T" ∨ (unusable (Some "T") ∧ usable (Some "D") "T")).
  { left. split; [reflexivity|discriminate]. }
  assert (Hnone : usable None "D" ∨ (unusable None ∧ usable (Some "D") "D")).
  { right. split; [by left|]. split; [reflexivity|discriminate]. }
  assert (Hempty : usable (Some "") "D" ∨ (unusable (Some "") ∧ usable (Some "D") "D")).
  { right. split; [by right|]. split; [reflexivity|discriminate]. }
  split_and!.
  - destruct (proj1 (team_resolution (table_fetch three_spaces) "pk_test" (Some "D")
                       (Some "T") "report" None None None tt) "T" Hcaller)
      as [(o1 & o2 & rest & Hc & _) _].
    exists o1, o2, rest. exact Hc.
  - destruct (proj1 (team_resolution (table_fetch search_table) "pk_test" (Some "D")
                       (Some "T") "report" None None None tt) "T" Hcaller)
      as [_ (filters & o & Hc)].
    exists filters, o. exact Hc.
  - destruct (proj1 (team_resolution (table_fetch three_spaces) "pk_test" (Some "D")
                       None "report" None None None tt) "D" Hnone)
      as [(o1 & o2 & rest & Hc & _) _].
    exists o1, o2, rest. exact Hc.
  - destruct (proj1 (team_resolution (table_fetch search_table) "pk_test" (Some "D")
                       (Some "") "report" None None None tt) "D" Hempty)
      as [_ (filters & o & Hc)].
    exists filters, o. exact Hc.
  - apply (team_resolution (table_fetch search_table) "pk_test" None (Some "")
             "report" None None None tt).
    + by right.
    + by left.
Defined.

(** C4 as stated fails on the empty string: the caller supplies the team [""]
    and the default is ["T"]; the call goes to team ["T"], not to the team the
    caller supplied. *)
Lemma empty_team_counterexample :
  (∃ o, calls (run (search (table_fetch search_table) "pk_test" (Some "T")
                      "report" (Some "") None None None) tt)
        = [(search_request "pk_test" (VStr "T") "report" None None None, o)])
  ∧ ¬ (∃ o, calls (run (search (table_fetch search_table) "pk_test" (Some "T")
                          "report" (Some "") None None None) tt)
            = [(search_request "pk_test" (VStr "") "report" None None None, o)]).
Proof.
  split.
  - eexists. vm_compute. reflexivity.
  - intros [o H]. vm_compute in H. discriminate H.
Qed.

(** ** Task projections: due dates and absent collections *)

Section Projections.

Context {World : Type}.
Variable fetch : request → World → option response * World.
Variable TOKEN : string.
Variable DEFAULT_TEAM : option string.

Lemma run_task (id : string) (w : World) :
  run (task fetch TOKEN id) w =
  let req := mk_request TOKEN "GET" ("/task/" +:+ id) None in
  (t ← api_result (fetch req w).1; data ← shape_task t; ok (json data),
   (fetch req w).2, [(req, (fetch req w).1)]).
Proof.
  unfold task. rewrite run_bind, run_api. cbv zeta.
  destruct (api_result _) as [e|t]; cbn; [reflexivity|].
  rewrite run_bind, run_lift.
  destruct (shape_task t); cbn; by rewrite ?app_nil_r.
Qed.

Lemma shape_task_is_object (t v : value) :
  shape_task t = ok v → ∃ fs, v = VObj fs.
Proof.
  unfold shape_task. intros H. repeat bind_inv H. cbn in H.
  injection H as <-. eauto.
Qed.

(** C3.  Whenever the task tool or the search tool returns a task whose
    upstream representation has no due date (the [due_date] property is
    missing or [null]), the [due] property of that task in the output is
    present and is exactly [null]. *)
Theorem due_is_null_without_due_date :
  (∀ (id : string) (w : World) (out : option JSON),
      outcome (run (task fetch TOKEN id) w) = ok out →
      ∃ req o t j,
        calls (run (task fetch TOKEN id) w) = [(req, o)] ∧
        api_result o = ok t ∧ out = Some j ∧
        (no_due_date t → jfield "due" j = Some JNull))
  ∧ (∀ (q : string) (team : option string) (assignee due_before due_after : option Z)
       (w : World) (out : option JSON),
      outcome (run (search fetch TOKEN DEFAULT_TEAM q team assignee due_before due_after) w)
      = ok out →
      ∃ req o res tasks_field found items,
        calls (run (search fetch TOKEN DEFAULT_TEAM q team assignee due_before due_after) w)
        = [(req, o)] ∧
        api_result o = ok res ∧
        get res "tasks" = ok tasks_field ∧
        or_else tasks_field (VArr []) = VArr found ∧
        out = Some (JArr items) ∧
        length items = length (take 20 found) ∧
        ∀ (i : nat) (t : value),
          take 20 found !! i = Some t → no_due_date t →
          ∃ j, items !! i = Some j ∧ jfield "due" j = Some JNull).
Proof.
  split.
  - intros id w out. rewrite run_task. cbv zeta. cbn [outcome calls fst snd].
    intros H. bind_inv H. bind_inv H. injection H as <-.
    destruct (shape_task_is_object _ _ E0) as [fs ->].
    eexists _, _, v, _. split_and!; [done..|].
    intros Hd. apply (shape_task_due _ _ E0 Hd).
  - intros q team a db da w out. rewrite run_search. cbv zeta.
    destruct (truthy _); [|discriminate]. cbn [outcome calls fst snd].
    intros H. bind_inv H. bind_inv H. injection H as <-.
    apply search_tasks_ok_inv in E0 as (tf & found & shaped & Hget & Hor & Hsh & ->).
    eexists _, _, v, tf, found, (written <$> shaped). split_and!; try done.
    + rewrite length_fmap. symmetry. by eapply Forall2_length.
    + intros i t Hi Hd.
      destruct (Forall2_lookup_l _ _ _ _ _ Hsh Hi) as (s & Hs & Hshape).
      exists (written s). split; [by rewrite list_lookup_fmap, Hs|].
      by apply (shape_search_task_due t).
Qed.





End Projections.

(** A task without due date, fetched by the task tool and found by the
    search tool: [due] is [null] in both outputs. *)
Lemma due_is_null_without_due_date_witness :
  (∃ j, outcome (run (task (table_fetch search_table) "pk_test" "86a1") tt) = ok (Some j)
        ∧ jfield "due" j = Some JNull)
  ∧ (∃ items j,
        outcome (run (search (table_fetch search_table) "pk_test" None
                        "report" (Some "T") None None None) tt)
        = ok (Some (JArr items))
        ∧ items !! 7%nat = Some j ∧ jfield "due" j = Some JNull).
Proof.
  pose proof (due_is_null_without_due_date (table_fetch search_table) "pk_test" None)
    as [Htask Hsearch].
  split.
  - edestruct (Htask "86a1" tt) as (req & o & t & j & Hc & Ho & Hout & Hdue).
    { vm_compute. reflexivity. }
    exists j. split.
    + rewrite <- Hout. vm_compute. reflexivity.
    + apply Hdue. vm_compute in Hc. injection Hc as _ <-.
      vm_compute in Ho. injection Ho as <-. by left.
  - edestruct (Hsearch "report" (Some "T") None None None tt)
      as (req & o & res & tf & found & items & Hc & Ho & Hg & Hf & Hout & _ & Hdue).
    { vm_compute. reflexivity. }
    vm_compute in Hc. injection Hc as _ <-.
    vm_compute in Ho. injection Ho as <-.
    vm_compute in Hg. injection Hg as <-.
    vm_compute in Hf. injection Hf as <-.
    destruct (Hdue 7%nat (bare_task "8")) as (j & Hj & Hnull).
    { reflexivity. }
    { by left. }
    exists items, j. split; [|by split].
    rewrite <- Hout. vm_compute. reflexivity.
Defined.



(** ** The update tool *)

Section Update.

Context {World : Type}.
Variable fetch : request → World → option response * World.
Variable TOKEN : string.

Lemma update_calls (id : string) (name desc status : option string)
    (priority due : option Z) (w : World) :
  calls (run (update fetch TOKEN id name desc status priority due) w)
  = [(mk_request TOKEN "PUT" ("/task/" +:+ id)
        (Some (VObj (update_body name desc status priority due))),
      (fetch (mk_request TOKEN "PUT" ("/task/" +:+ id)
                (Some (VObj (update_body name desc status priority due)))) w).1)].
Proof.
  unfold update. cbv zeta. rewrite run_bind, run_api.
  destruct (api_result _) as [e|t]; cbn [calls snd]; [reflexivity|].
  by destruct (run _ _) as [[r w2] l2] eqn:Hr; rewrite run_bind, run_lift in Hr;
    destruct (mbind _ _); cbn in Hr; simplify_eq.
Qed.

(** The document sent by [update], property by property. *)
Lemma update_body_written (name desc status : option string) (priority due : option Z) :
  stringify (VObj (update_body name desc status priority due))
  = Some (JObj (omap id
      [ pair "name" ∘ JStr <$> name;
        pair "description" ∘ JStr <$> desc;
        pair "status" ∘ JStr <$> status;
        pair "priority" ∘ JNum <$> priority;
        (λ d, ("due_date", if (d =? 0)%Z then JNull else JNum d)) <$> due ])).
Proof.
  destruct name, desc, status, priority, due as [[| |]|]; reflexivity.
Qed.

(** C5.  The update tool issues one [PUT] on the task whose body is a JSON
    object with exactly the properties the caller supplied among [name],
    [description] (argument [desc]), [status], [priority] and [due_date]
    (argument [due]), each once and with the supplied value; an argument
    that was not supplied has no property in the body. *)
Theorem update_sends_exactly_supplied_fields (id : string)
    (name desc status : option string) (priority due : option Z) (w : World) :
  ∃ o fields,
    calls (run (update fetch TOKEN id name desc status priority due) w)
    = [({| method := "PUT"; url := API +:+ "/task/" +:+ id;
           headers := request_headers TOKEN; body := Some (JObj fields) |}, o)]
    ∧ NoDup (jkeys (JObj fields))
    ∧ (∀ k : string,
          k ∈ jkeys (JObj fields) ↔
          (k = "name" ∧ is_Some name) ∨ (k = "description" ∧ is_Some desc)
          ∨ (k = "status" ∧ is_Some status) ∨ (k = "priority" ∧ is_Some priority)
          ∨ (k = "due_date" ∧ is_Some due))
    ∧ jfield "name" (JObj fields) = JStr <$> name
    ∧ jfield "description" (JObj fields) = JStr <$> desc
    ∧ jfield "status" (JObj fields) = JStr <$> status
    ∧ jfield "priority" (JObj fields) = JNum <$> priority
    ∧ (is_Some (jfield "due_date" (JObj fields)) ↔ is_Some due).
Proof.
  eexists _, _. split.
  { rewrite update_calls. unfold mk_request. cbn [truthy].
    rewrite update_body_written. reflexivity. }
  destruct name, desc, status, priority, due; cbn;
    (split_and!;
     [ apply (bool_decide_unpack _); vm_compute; exact I
     | intros k; rewrite ?elem_of_cons, elem_of_nil; unfold is_Some; naive_solver
     | reflexivity ..
     | unfold is_Some; naive_solver ]).
Qed.

(** C6.  When [due] is supplied, the body of the update carries a
    [due_date] property: [null] when the supplied value is 0, the supplied
    value itself otherwise. *)
Theorem update_due_zero_clears (id : string) (name desc status : option string)
    (priority : option Z) (d : Z) (w : World) :
  ∃ o req doc,
    calls (run (update fetch TOKEN id name desc status priority (Some d)) w) = [(req, o)]
    ∧ body req = Some doc
    ∧ (d = 0 → jfield "due_date" doc = Some JNull)
    ∧ (d ≠ 0 → jfield "due_date" doc = Some (JNum d)).
Proof.
  eexists _, _, _. split; [apply update_calls|].
  split.
  { unfold mk_request. cbn [body truthy]. apply update_body_written. }
  destruct (Z.eqb_spec d 0) as [->|Hne].
  - split; [|done]. intros _.
    destruct name, desc, status, priority; reflexivity.
  - split; [done|]. intros _.
    destruct name, desc, status, priority; cbn;
      destruct (Z.eqb_spec d 0); done.
Qed.

End Update.

(** A partial update that clears the due date, and one that sets it. *)
Lemma update_due_zero_clears_witness :
  (∃ o req doc,
      calls (run (update (table_fetch crud_table) "pk_test" "86a1"
                    (Some "Ship it") None None None (Some 0)) tt) = [(req, o)]
      ∧ body req = Some doc ∧ jfield "due_date" doc = Some JNull)
  ∧ (∃ o req doc,
      calls (run (update (table_fetch crud_table) "pk_test" "86a1"
                    None None None None (Some 1700000000000)) tt) = [(req, o)]
      ∧ body req = Some doc ∧ jfield "due_date" doc = Some (JNum 1700000000000)).
Proof.
  split.
  - destruct (update_due_zero_clears (table_fetch crud_table) "pk_test" "86a1"
                (Some "Ship it") None None None 0 tt)
      as (o & req & doc & Hc & Hb & Hzero & _).
    exists o, req, doc. split_and!; [exact Hc|exact Hb|]. apply Hzero. reflexivity.
  - destruct (update_due_zero_clears (table_fetch crud_table) "pk_test" "86a1"
                None None None None 1700000000000 tt)
      as (o & req & doc & Hc & Hb & _ & Hset).
    exists o, req, doc. split_and!; [exact Hc|exact Hb|]. apply Hset. lia.
Defined.

(** * More of the program *)

(** ** The tools that read *)

Section EveryCall.

Context {World : Type}.

Variable fetch : request → World → option response * World.
Variable TOKEN : string.
Variable DEFAULT_TEAM : option string.

(** Proves [every_call P] for a handler, given a tactic for its calls. *)
Ltac handler_calls tac :=
  repeat first
    [ apply every_call_ret
    | apply every_call_lift
    | apply every_call_api; intros ?; tac
    | apply every_call_par2
    | apply every_call_fmap
    | apply every_call_bind; [|intros ?] ].

Lemma every_call_hierarchy (P : call → Prop) (team : option string) :
  (∀ path o, P (mk_request TOKEN "GET" path None, o)) →
  every_call P (hierarchy fetch TOKEN DEFAULT_TEAM team).
Proof.
  intros HP. unfold hierarchy. destruct (negb _); [apply every_call_lift|].
  apply every_call_bind; [handler_calls ltac:(apply HP)|intros p].
  apply every_call_bind; [|intros ?; handler_calls ltac:(apply HP)].
  unfold space_entries. apply every_call_bind; [apply every_call_lift|intros sps].
  destruct (or_else sps (VArr [])); try apply every_call_lift.
  apply every_call_fmap, every_call_par_all, Forall_fmap, Forall_forall.
  intros sp _. unfold space_entry. handler_calls ltac:(apply HP).
Qed.

(** X4.  The three reading tools only read: every request of [hierarchy],
    [search] and [task] is a [GET] without body, whatever the arguments and
    whatever upstream answers. *)
Theorem reading_tools_only_read :
  (∀ team, every_call read_only (hierarchy fetch TOKEN DEFAULT_TEAM team))
  ∧ (∀ q team a db da,
        every_call read_only (search fetch TOKEN DEFAULT_TEAM q team a db da))
  ∧ (∀ id, every_call read_only (task fetch TOKEN id)).
Proof.
  split_and!; intros.
  - apply every_call_hierarchy. by intros.
  - unfold search. destruct (negb _); handler_calls ltac:(done).
  - unfold task. handler_calls ltac:(done).
Qed.

End EveryCall.

(** ** The tools that write *)

Section Writing.

Context {World : Type}.
Variable fetch : request → World → option response * World.
Variable TOKEN : string.

Lemma written_VStr (l : list string) : written <$> (VStr <$> l) = JStr <$> l.
Proof. rewrite <- list_fmap_compose. by apply list_fmap_ext. Qed.

Lemma written_VNum (l : list Z) : written <$> (VNum <$> l) = JNum <$> l.
Proof. rewrite <- list_fmap_compose. by apply list_fmap_ext. Qed.

(** The document sent by [create], property by property. *)
Lemma create_body_written (name : string) (desc : option string) (priority : option Z)
    (tags : option (list string)) (due : option Z) (assignees : option (list Z)) :
  stringify (create_body name desc priority tags due assignees)
  = Some (JObj (omap id
      [ Some ("name", JStr name);
        pair "description" ∘ JStr <$> desc;
        pair "priority" ∘ JNum <$> priority;
        (λ l, ("tags", JArr (JStr <$> l))) <$> tags;
        pair "due_date" ∘ JNum <$> due;
        (λ l, ("assignees", JArr (JNum <$> l))) <$> assignees ])).
Proof.
  destruct desc, priority, tags, due, assignees; cbn;
    rewrite ?written_VStr, ?written_VNum; reflexivity.
Qed.

Lemma create_calls (list_id name : string) (desc : option string) (priority : option Z)
    (tags : option (list string)) (due : option Z) (assignees : option (list Z))
    (w : World) :
  calls (run (create fetch TOKEN list_id name desc priority tags due assignees) w)
  = [(mk_request TOKEN "POST" ("/list/" +:+ list_id +:+ "/task")
        (Some (create_body name desc priority tags due assignees)),
      (fetch (mk_request TOKEN "POST" ("/list/" +:+ list_id +:+ "/task")
                (Some (create_body name desc priority tags due assignees))) w).1)].
Proof.
  unfold create. rewrite run_bind, run_api.
  destruct (api_result _) as [e|t]; cbn [calls snd]; [reflexivity|].
  rewrite run_bind, run_lift. by destruct (id_and_url t).
Qed.

(** X5.  The create tool issues one [POST] on the list whose body is a JSON
    object with [name] and exactly those of [description], [priority],
    [tags], [due_date] and [assignees] whose argument was supplied, each once
    and with the supplied value.  Unlike [update], it sends a due date of 0
    as the number 0. *)
Theorem create_sends_supplied_fields (list_id name : string) (desc : option string)
    (priority : option Z) (tags : option (list string)) (due : option Z)
    (assignees : option (list Z)) (w : World) :
  ∃ o fields,
    calls (run (create fetch TOKEN list_id name desc priority tags due assignees) w)
    = [({| method := "POST"; url := API +:+ "/list/" +:+ list_id +:+ "/task";
           headers := request_headers TOKEN; body := Some (JObj fields) |}, o)]
    ∧ NoDup (jkeys (JObj fields))
    ∧ (∀ k : string,
          k ∈ jkeys (JObj fields) ↔
          k = "name" ∨ (k = "description" ∧ is_Some desc)
          ∨ (k = "priority" ∧ is_Some priority) ∨ (k = "tags" ∧ is_Some tags)
          ∨ (k = "due_date" ∧ is_Some due) ∨ (k = "assignees" ∧ is_Some assignees))
    ∧ jfield "name" (JObj fields) = Some (JStr name)
    ∧ jfield "description" (JObj fields) = JStr <$> desc
    ∧ jfield "priority" (JObj fields) = JNum <$> priority
    ∧ jfield "tags" (JObj fields) = (λ l, JArr (JStr <$> l)) <$> tags
    ∧ jfield "due_date" (JObj fields) = JNum <$> due
    ∧ jfield "assignees" (JObj fields) = (λ l, JArr (JNum <$> l)) <$> assignees.
Proof.
  eexists _, _. split.
  { rewrite create_calls. unfold mk_request. cbn [truthy create_body].
    fold (create_body name desc priority tags due assignees).
    rewrite create_body_written. reflexivity. }
  destruct desc, priority, tags, due, assignees; cbn;
    (split_and!;
     [ apply (bool_decide_unpack _); vm_compute; exact I
     | intros k; rewrite ?elem_of_cons, elem_of_nil; unfold is_Some; naive_solver
     | reflexivity .. ]).
Qed.

(** The five tools that answer [{ ok: true }] have the same frame: one call,
    whose answer is dropped. *)
Lemma run_acknowledging (m path : string) (b : option value) (w : World) :
  run (_ ← api fetch TOKEN m path b; mret (json acknowledged)) w
  = (_ ← api_result (fetch (mk_request TOKEN m path b) w).1;
     ok (Some (JObj [("ok", JBool true)])),
     (fetch (mk_request TOKEN m path b) w).2,
     [(mk_request TOKEN m path b, (fetch (mk_request TOKEN m path b) w).1)]).
Proof. rewrite run_bind, run_api. by destruct (api_result _). Qed.

(** X6.  Each of [delete], [assign] and [unassign] (and the [assign] and
    [unassign] of the first revision, which use the assignee endpoint), and
    each of [tag] and [untag] for a tag that is a well-formed string, issues
    exactly one call and answers [{ok: true}] exactly when that call did not
    fail, whatever the content of the answer; when the call failed, the tool
    fails with the error of the call ([delete] on a task upstream does not
    know fails with the 404 and its body).  (A tag that holds a lone
    surrogate makes [encodeURIComponent] throw before [tag] or [untag]
    issues a call; the statement is not about such a tag.) *)
Theorem acknowledgement_follows_the_call (id : string) (user : Z) (name : string)
    (w : World) :
  well_formed name = true →
  ∀ m, m ∈ [ delete_task fetch TOKEN id; assign fetch TOKEN id user;
             unassign fetch TOKEN id user; tag fetch TOKEN id name;
             untag fetch TOKEN id name; Rev1.assign fetch TOKEN id user;
             Rev1.unassign fetch TOKEN id user ] →
  ∃ c, calls (run m w) = [c]
       ∧ (¬ failed c → outcome (run m w) = ok (Some (JObj [("ok", JBool true)])))
       ∧ (∀ e, api_result c.2 = throw e → outcome (run m w) = throw e).
Proof.
  intros _ m Hm. rewrite !elem_of_cons, elem_of_nil in Hm.
  assert (∃ me path b, m = (_ ← api fetch TOKEN me path b; mret (json acknowledged)))
    as (me & path & b & ->).
  { destruct Hm as [->|[->|[->|[->|[->|[->|[->|[]]]]]]]]; by eexists _, _, _. }
  rewrite run_acknowledging. eexists. split; [reflexivity|].
  unfold failed. cbn [outcome fst snd].
  destruct (api_result _) as [e|v]; cbn; split.
  - intros H. by destruct H.
  - by intros e' [= ->].
  - done.
  - intros e' H. discriminate H.
Qed.

End Writing.

(** A due date of 0 in [create]. *)
Lemma create_sends_supplied_fields_witness :
  ∃ o doc,
    calls (run (create (table_fetch crud_table) "pk_test" "L1" "T1" None None None
                  (Some 0) None) tt)
    = [({| method := "POST"; url := API +:+ "/list/L1/task";
           headers := request_headers "pk_test"; body := Some doc |}, o)]
    ∧ jfield "due_date" doc = Some (JNum 0) ∧ jfield "description" doc = None.
Proof.
  destruct (create_sends_supplied_fields (table_fetch crud_table) "pk_test" "L1" "T1"
              None None None (Some 0) None tt)
    as (o & fields & Hc & _ & _ & _ & Hd & _ & _ & Hdue & _).
  exists o, (JObj fields). split_and!; [exact Hc|exact Hdue|exact Hd].
Defined.

(** [delete] on an unknown task, and the tag ["urgent"] removed from a task
    upstream answers with 204. *)
Lemma acknowledgement_follows_the_call_witness :
  outcome (run (delete_task (table_fetch crud_table) "pk_test" "nope") tt)
  = throw (Error "404: Task not found")
  ∧ outcome (run (untag (table_fetch tag_table) "pk_test" "86a1" "urgent") tt)
    = ok (Some (JObj [("ok", JBool true)])).
Proof.
  split.
  - destruct (acknowledgement_follows_the_call (table_fetch crud_table) "pk_test"
                "nope" 0 "urgent" tt eq_refl
                (delete_task (table_fetch crud_table) "pk_test" "nope"))
      as (c & Hc & _ & Herr).
    { apply list_elem_of_In. by left. }
    apply Herr. injection Hc as <-. reflexivity.
  - destruct (acknowledgement_follows_the_call (table_fetch tag_table) "pk_test"
                "86a1" 0 "urgent" tt eq_refl
                (untag (table_fetch tag_table) "pk_test" "86a1" "urgent"))
      as (c & Hc & Hok & _).
    { apply list_elem_of_In. do 4 right. by left. }
    apply Hok. injection Hc as <-. vm_compute. discriminate.
Defined.

(** ** More on the hierarchy tool *)

Section HierarchyPlan.

Context {World : Type}.
Variable fetch : request → World → option response * World.
Variable TOKEN : string.
Variable DEFAULT_TEAM : option string.

(** X8.  When one of the two initial calls of the hierarchy tool fails, the
    tool fails after exactly these two calls: both were issued, and no call
    about any space is. *)
Theorem hierarchy_stops_after_initial_failure (team : option string) (w : World) :
  let teamId := or_else (opt_str team) (opt_str DEFAULT_TEAM) in
  let req1 := mk_request TOKEN "GET" ("/team/" +:+ ToString teamId) None in
  let req2 := mk_request TOKEN "GET"
                ("/team/" +:+ ToString teamId +:+ "/space?archived=false") None in
  let r1 := fetch req1 w in
  let r2 := fetch req2 r1.2 in
  truthy teamId = true →
  failed (req1, r1.1) ∨ failed (req2, r2.1) →
  calls (run (hierarchy fetch TOKEN DEFAULT_TEAM team) w) = [(req1, r1.1); (req2, r2.1)]
  ∧ ∃ e, outcome (run (hierarchy fetch TOKEN DEFAULT_TEAM team) w) = throw e.
Proof.
  intros teamId req1 req2 r1 r2 Htr Hfail.
  unfold hierarchy. fold teamId. rewrite Htr. cbn [negb].
  rewrite run_bind, run_par2, !run_api. fold req1. fold r1. fold req2. fold r2.
  unfold failed in Hfail. cbn [snd] in Hfail.
  destruct (api_result r1.1) as [e1|v1]; [cbn; eauto|].
  destruct (api_result r2.1) as [e2|v2]; [cbn; eauto|].
  by destruct Hfail.
Qed.

Lemma par_all_ok_inv {A} (ms : list (M World A)) (w w' : World) (vs : list A)
    (l : list call) :
  run (par_all ms) w = (ok vs, w', l) →
  Forall2 (λ m v, ∃ w1, outcome (run m w1) = ok v) ms vs.
Proof.
  revert w w' vs l. induction ms as [|m ms IH]; intros w w' vs l.
  - cbn [par_all]. rewrite run_ret. intros [= <- _ _]. constructor.
  - cbn [par_all]. rewrite run_bind, run_par2.
    destruct (run m w) as [[ra w1] l1] eqn:Hm.
    destruct (run (par_all ms) w1) as [[rb w2] l2] eqn:Hms.
    destruct ra as [e|a]; [by destruct rb|].
    destruct rb as [e|bs]; [discriminate|].
    rewrite run_ret. cbn. intros [= <- _ _]. constructor.
    + exists w. by rewrite Hm.
    + by eapply IH.
Qed.

Lemma space_record_ok_inv (sp foldersRes listsRes v : value) :
  space_record sp foldersRes listsRes = ok v →
  ∃ i n fs ls,
    get sp "id" = ok i ∧ get sp "name" = ok n
    ∧ v = VObj [("id", i); ("name", n); ("folders", VArr fs); ("lists", VArr ls)].
Proof.
  unfold space_record. intros H. repeat bind_inv H.
  apply js_map_ok_inv in E2 as (? & fs & _ & -> & _).
  apply js_map_ok_inv in E4 as (? & ls & _ & -> & _).
  injection H as <-. by eexists _, _, _, _.
Qed.

Lemma space_entry_ok_inv (sp v : value) (w : World) :
  outcome (run (space_entry fetch TOKEN sp) w) = ok v →
  ∃ foldersRes listsRes, space_record sp foldersRes listsRes = ok v.
Proof.
  unfold space_entry. rewrite run_bind, run_lift.
  destruct (get sp "id") as [e|sid]; [discriminate|].
  rewrite run_bind, run_par2, !run_api.
  destruct (api_result _) as [e|fr]; [discriminate|].
  destruct (api_result _) as [e|lr]; [discriminate|].
  rewrite run_lift. cbn. eauto.
Qed.

Lemma jfield_written_record (i n fs ls : value) :
  let rec := written (VObj [("id", i); ("name", n); ("folders", fs); ("lists", ls)]) in
  jfield "id" rec = stringify i ∧ jfield "name" rec = stringify n
  ∧ jfield "folders" rec = stringify fs ∧ jfield "lists" rec = stringify ls.
Proof.
  cbv zeta. split_and!; kept_lookup; by destruct (stringify _).
Qed.

(** X9.  When the hierarchy tool returns, its result is an object with a
    [spaces] and a [members] array.  [spaces] has one record per space of
    the upstream answer, in the order of that answer; the record of a space
    carries the [id] and the [name] of that very space, and always both a
    [folders] and a [lists] array. *)
Theorem hierarchy_result_shape (team : option string) (w : World) (out : option JSON) :
  outcome (run (hierarchy fetch TOKEN DEFAULT_TEAM team) w) = ok out →
  ∃ c1 c2 rest spacesRes sps l spaces members,
    calls (run (hierarchy fetch TOKEN DEFAULT_TEAM team) w) = c1 :: c2 :: rest
    ∧ api_result c2.2 = ok spacesRes
    ∧ get spacesRes "spaces" = ok sps
    ∧ or_else sps (VArr []) = VArr l
    ∧ out = Some (JObj [("spaces", JArr spaces); ("members", JArr members)])
    ∧ Forall2 (λ sp rec,
         ∃ i n fs ls,
           get sp "id" = ok i ∧ get sp "name" = ok n
           ∧ jfield "id" rec = stringify i ∧ jfield "name" rec = stringify n
           ∧ jfield "folders" rec = Some (JArr fs)
           ∧ jfield "lists" rec = Some (JArr ls)) l spaces.
Proof.
  unfold hierarchy. destruct (negb _); [discriminate|].
  rewrite run_bind, run_par2, !run_api.
  destruct (api_result _) as [e|teamInfo]; [discriminate|].
  destruct (api_result _) as [e|spacesRes] eqn:Hsp; [discriminate|].
  cbn [fst snd]. rewrite run_bind. unfold space_entries at 1 2.
  rewrite run_bind, run_lift.
  destruct (get spacesRes "spaces") as [e|sps] eqn:Hget; [discriminate|].
  destruct (or_else sps (VArr [])) as [| | | | | |l|] eqn:Hor;
    try (rewrite run_lift; discriminate).
  rewrite run_fmap.
  destruct (run (par_all _) _) as [[[e|vs] w3] l3] eqn:Hall; [discriminate|].
  cbn. rewrite run_bind, run_lift.
  destruct (team_members teamInfo) as [e|ms] eqn:Hms; [discriminate|].
  cbn. intros [= <-].
  unfold team_members in Hms. repeat bind_inv Hms.
  apply js_map_ok_inv in Hms as (? & ks & _ & -> & _).
  eexists _, _, _, spacesRes, sps, l, (written <$> vs), (written <$> ks).
  split_and!; [reflexivity|exact Hsp|exact Hget|exact Hor|reflexivity|].
  apply par_all_ok_inv in Hall. apply Forall2_fmap_l in Hall.
  apply Forall2_fmap_r. eapply Forall2_impl; [exact Hall|].
  intros sp rv [w1 Hv].
  apply space_entry_ok_inv in Hv as (fr & lr & Hrec).
  apply space_record_ok_inv in Hrec as (i & n & fs & ls & Hi & Hn & ->).
  exists i, n, (written <$> fs), (written <$> ls).
  pose proof (jfield_written_record i n (VArr fs) (VArr ls)) as (? & ? & ? & ?).
  by split_and!.
Qed.

End HierarchyPlan.

(** The team call answers 500: two calls, no space is asked about. *)
Lemma hierarchy_stops_after_initial_failure_witness :
  length (calls (run (hierarchy
                        (table_fetch ((API +:+ "/team/T", refusal 500 "down") :: three_spaces))
                        "pk_test" None (Some "T")) tt)) = 2%nat.
Proof.
  rewrite (proj1 (hierarchy_stops_after_initial_failure
                    (table_fetch ((API +:+ "/team/T", refusal 500 "down") :: three_spaces))
                    "pk_test" None (Some "T") tt eq_refl (or_introl eq_refl))).
  reflexivity.
Defined.

(** Three spaces that all answer: three records. *)
Lemma hierarchy_result_shape_witness :
  ∃ spaces members,
    outcome (run (hierarchy
                    (table_fetch ((API +:+ "/space/s2/folder?archived=false",
                                   answer 200 (VObj [("folders", VArr [])]))
                                  :: three_spaces))
                    "pk_test" None (Some "T")) tt)
    = ok (Some (JObj [("spaces", JArr spaces); ("members", JArr members)]))
    ∧ length spaces = 3%nat.
Proof.
  edestruct (hierarchy_result_shape
               (table_fetch ((API +:+ "/space/s2/folder?archived=false",
                              answer 200 (VObj [("folders", VArr [])]))
                             :: three_spaces))
               "pk_test" None (Some "T") tt)
    as (c1 & c2 & rest & spacesRes & sps & l & spaces & members
        & Hc & Hsp & Hget & Hor & Hout & Hall).
  { vm_compute. reflexivity. }
  exists spaces, members. split.
  - rewrite <- Hout. vm_compute. reflexivity.
  - apply Forall2_length in Hall. rewrite <- Hall.
    vm_compute in Hc. injection Hc as _ <- _.
    vm_compute in Hsp. injection Hsp as <-.
    vm_compute in Hget. injection Hget as <-.
    vm_compute in Hor. by injection Hor as <-.
Defined.

(** ** When the task tool fails on a successful answer *)

Lemma mapM_ok_total {A B} (f : A → result B) (l : list A) :
  Forall (λ x, ∃ y, f x = ok y) l → ∃ k, mapM f l = ok k.
Proof.
  induction 1 as [|x l [y Hy] _ [k IH]]; [by eexists|].
  exists (y :: k). cbn. fold (mapM f l). by rewrite Hy, IH.
Qed.

Lemma js_map_opt_ok_iff (f : value → result value) (v : value) :
  (∀ x, (∃ y, f x = ok y) ↔ nullish x = false) →
  (∃ r, js_map_opt f v = ok r) ↔ collection_ok v.
Proof.
  intros Hf. unfold js_map_opt, collection_ok.
  destruct (nullish v) eqn:Hn; [split; eauto|].
  split.
  - intros [r Hr]. right.
    apply js_map_ok_inv in Hr as (l & k & -> & -> & Hlk).
    exists l. split; [done|].
    apply Forall2_Forall_l with (Q := λ x, nullish x = false) in Hlk;
      [done|]. apply Forall_forall. intros y _ x Hx. apply Hf. eauto.
  - intros [?|(l & -> & Hl)]; [done|]. cbn.
    destruct (mapM_ok_total f l) as [k ->]; [|by eexists].
    eapply Forall_impl; [exact Hl|]. intros x Hx. by apply Hf.
Qed.

Lemma get_ok_iff (x : value) (k : string) : (∃ y, get x k = ok y) ↔ nullish x = false.
Proof.
  split; [intros [y Hy]; by eapply get_ok_not_nullish|apply get_total].
Qed.

Lemma shape_assignee_ok_iff (x : value) :
  (∃ y, shape_assignee x = ok y) ↔ nullish x = false.
Proof.
  unfold shape_assignee. split.
  - intros [y Hy]. bind_inv Hy. by eapply get_ok_not_nullish.
  - intros Hn. destruct (get_total x "id" Hn) as [i ->].
    destruct (get_total x "username" Hn) as [n ->]. by eexists.
Qed.

Lemma shape_task_ok_iff (t : value) :
  (∃ v, shape_task t = ok v) ↔
  ∃ tags assignees,
    get t "tags" = ok tags ∧ get t "assignees" = ok assignees
    ∧ collection_ok tags ∧ collection_ok assignees.
Proof.
  unfold shape_task, shape_due. split.
  - intros [v H]. repeat bind_inv H.
    match goal with
    | Ht : get t "tags" = inr ?tg, Ha : get t "assignees" = inr ?asg |- _ =>
        exists tg, asg
    end.
    split_and!; [done..| |].
    + apply (js_map_opt_ok_iff (λ x, get x "name")); [intros; apply get_ok_iff|eauto].
    + apply (js_map_opt_ok_iff shape_assignee); [apply shape_assignee_ok_iff|eauto].
  - intros (tg & asg & Htg & Hasg & Hc1 & Hc2).
    pose proof (get_ok_not_nullish _ _ _ Htg) as Hn.
    destruct (get_total t "id" Hn) as [i ->].
    destruct (get_total t "name" Hn) as [n ->].
    destruct (get_total t "description" Hn) as [de ->].
    destruct (get_total t "status" Hn) as [st ->].
    destruct (get_total t "priority" Hn) as [pr ->].
    destruct (get_total t "due_date" Hn) as [d ->].
    destruct (get_total t "url" Hn) as [u ->].
    rewrite Htg, Hasg. cbn [mbind result_bind].
    destruct (get_opt_total st "status") as [s ->].
    destruct (get_opt_total pr "priority") as [p ->].
    cbn [mbind result_bind].
    apply (js_map_opt_ok_iff (λ x, get x "name")) in Hc1 as [r1 ->];
      [|intros; apply get_ok_iff].
    apply (js_map_opt_ok_iff shape_assignee) in Hc2 as [r2 ->];
      [|apply shape_assignee_ok_iff].
    cbn. by eexists.
Qed.

Section TaskFailure.

Context {World : Type}.
Variable fetch : request → World → option response * World.
Variable TOKEN : string.

(** X10.  After a successful call whose answer has a due date that is not
    an object or an array (the declared type is a string; converting an
    object to a number can throw), the task tool returns a result exactly
    when the answer is not [null] and its [tags] and [assignees] are each
    missing, [null], or an array without [null] elements.  On any other such
    answer (a [tags] that is a string, an assignee that is [null]) the tool
    fails although upstream answered. *)
Theorem task_succeeds_iff_collections_ok (id : string) (w : World) (t : value) :
  api_result (fetch (mk_request TOKEN "GET" ("/task/" +:+ id) None) w).1 = ok t →
  (∀ d, get t "due_date" = ok d → primitive d = true) →
  (∃ out, outcome (run (task fetch TOKEN id) w) = ok out) ↔
  ∃ tags assignees,
    get t "tags" = ok tags ∧ get t "assignees" = ok assignees
    ∧ collection_ok tags ∧ collection_ok assignees.
Proof.
  intros Hapi _. rewrite run_task. cbv zeta. cbn [outcome fst]. rewrite Hapi.
  cbn [mbind result_bind]. rewrite <- shape_task_ok_iff.
  destruct (shape_task t) as [e|v]; cbn; split; intros [x Hx]; try discriminate;
    by eexists.
Qed.

End TaskFailure.

(** A task whose [tags] is [null], and one whose [assignees] holds a
    [null]. *)
Lemma task_succeeds_iff_collections_ok_witness :
  (∃ out, outcome (run (task
                          (table_fetch [(API +:+ "/task/a",
                                         answer 200 (VObj [("id", VStr "a"); ("tags", VNull)]))])
                          "pk_test" "a") tt) = ok out)
  ∧ ¬ (∃ out, outcome (run (task
                              (table_fetch [(API +:+ "/task/b",
                                             answer 200 (VObj [("id", VStr "b");
                                                               ("assignees", VArr [VNull])]))])
                              "pk_test" "b") tt) = ok out).
Proof.
  split.
  - eapply (task_succeeds_iff_collections_ok _ "pk_test" "a" tt);
      [reflexivity|by intros d [= <-]|].
    eexists _, _. split_and!; [reflexivity|reflexivity|by left|by left].
  - intros H.
    eapply (task_succeeds_iff_collections_ok _ "pk_test" "b" tt) in H;
      [|reflexivity|by intros d [= <-]].
    destruct H as (tg & asg & _ & Ha & _ & [Hn|(l & -> & Hl)]).
    + injection Ha as <-. discriminate Hn.
    + injection Ha as <-. by apply Forall_cons in Hl as [? _].
Defined.

(** ** Due dates survive the trip through text *)

Lemma digit_of_pretty_N_char (d : N) :
  (d < 10)%N → digit_of (pretty_N_char d) = Some (Z.of_N d).
Proof.
  intros Hd.
  assert (d = 0 ∨ d = 1 ∨ d = 2 ∨ d = 3 ∨ d = 4 ∨ d = 5 ∨ d = 6 ∨ d = 7
          ∨ d = 8 ∨ d = 9)%N as Hcases by lia.
  repeat destruct Hcases as [->|Hcases]; try reflexivity. by subst.
Qed.

Lemma parse_digits_pretty_N_go (x : N) :
  ∃ k : Z, 0 ≤ k ∧ ∀ (acc : Z) (s : string),
    parse_digits acc (pretty_N_go x s) = parse_digits (acc * 10 ^ k + Z.of_N x) s.
Proof.
  induction (N.lt_wf_0 x) as [x _ IH].
  assert (x = 0 ∨ 0 < x)%N as [->|Hpos] by lia.
  - exists 0. split; [done|]. intros acc s. rewrite pretty_N_go_0. f_equal. lia.
  - destruct (IH (x `div` 10)%N) as (k & Hk & IHk); [by apply N.div_lt|].
    exists (k + 1). split; [lia|]. intros acc s.
    rewrite pretty_N_go_step by done. rewrite IHk. cbn [parse_digits].
    rewrite digit_of_pretty_N_char by (apply N.mod_lt; lia).
    f_equal. rewrite Z.pow_add_r by lia.
    pose proof (N.div_mod x 10 ltac:(lia)) as Hdm.
    apply (f_equal Z.of_N) in Hdm. rewrite N2Z.inj_add, N2Z.inj_mul in Hdm.
    change (Z.of_N 10) with 10 in Hdm. lia.
Qed.

Lemma parse_digits_pretty_N (x : N) : parse_digits 0 (pretty x) = Some (Z.of_N x).
Proof.
  unfold pretty, pretty_N. case_decide as Hx; [by subst|].
  destruct (parse_digits_pretty_N_go x) as (k & _ & Hk).
  rewrite Hk. cbn [parse_digits]. by rewrite Z.mul_0_l, Z.add_0_l.
Qed.

Lemma StringToNumber_digits (c : ascii) (r : string) (n : Z) :
  parse_digits 0 (String c r) = Some n → StringToNumber (String c r) = VNum n.
Proof.
  destruct c as [[] [] [] [] [] [] [] []]; intros H;
    try discriminate H; cbn [StringToNumber]; by rewrite H.
Qed.

Lemma pretty_N_nonempty (p : positive) : ∃ c r, pretty (Npos p) = String c r.
Proof.
  destruct (pretty (Npos p)) as [|c r] eqn:Hp; [|by eauto].
  pose proof (parse_digits_pretty_N (Npos p)) as H. rewrite Hp in H. discriminate H.
Qed.

(** [Number] reads the decimal text of [n] as [n]. *)
Lemma StringToNumber_pretty (n : Z) : StringToNumber (pretty n) = VNum n.
Proof.
  destruct n as [|p|p]; [reflexivity| |].
  - change (StringToNumber (pretty (Npos p)) = VNum (Z.of_N (Npos p))).
    destruct (pretty_N_nonempty p) as (c & r & Hp).
    pose proof (parse_digits_pretty_N (Npos p)) as H. rewrite Hp in *.
    by apply StringToNumber_digits.
  - change (StringToNumber ("-" +:+ pretty (Npos p)) = VNum (- Z.of_N (Npos p))).
    destruct (pretty_N_nonempty p) as (c & r & Hp).
    pose proof (parse_digits_pretty_N (Npos p)) as H. rewrite Hp in *.
    change ("-" +:+ String c r) with (String "-" (String c r)).
    cbn [StringToNumber]. by rewrite H.
Qed.

Lemma pretty_Z_truthy (n : Z) : truthy (VStr (pretty n)) = true.
Proof.
  destruct n as [|p|p]; [reflexivity| |reflexivity].
  change (truthy (VStr (pretty (Npos p))) = true).
  by destruct (pretty_N_nonempty p) as (c & r & ->).
Qed.

Lemma shape_due_decimal (t : value) (n : Z) :
  get t "due_date" = ok (VStr (pretty n)) → shape_due t = ok (VNum n).
Proof.
  intros H. unfold shape_due. rewrite H. cbn [mbind result_bind].
  rewrite pretty_Z_truthy. cbn [Number]. by rewrite StringToNumber_pretty.
Qed.

(** X11.  A due date that upstream sends as the decimal text of an integer
    of at most 2^53 in absolute value comes out of the task and search
    projections as that integer, also when the integer is 0 or negative: the
    text ["0"] is a due date, not a missing one. *)
Theorem due_date_text_is_read_back (t v : value) (n : Z) :
  safe_integer n →
  get t "due_date" = ok (VStr (pretty n)) →
  (shape_task t = ok v → jfield "due" (written v) = Some (JNum n))
  ∧ (shape_search_task t = ok v → jfield "due" (written v) = Some (JNum n)).
Proof.
  intros _ Hd. pose proof (shape_due_decimal t n Hd) as Hdue. split.
  - unfold shape_task. rewrite Hdue. intros H. repeat bind_inv H.
    cbn in H. injection H as <-. by kept_lookup.
  - unfold shape_search_task. rewrite Hdue. intros H. repeat bind_inv H.
    cbn in H. injection H as <-. by kept_lookup.
Qed.

(** The task created with due = 1700000000000, fetched again. *)
Lemma due_date_text_is_read_back_witness :
  ∃ v, shape_task (VObj [("id", VStr "86a1"); ("name", VStr "T1");
                         ("due_date", VStr "1700000000000"); ("url", VStr "u")]) = ok v
       ∧ jfield "due" (written v) = Some (JNum 1700000000000).
Proof.
  assert (Hsafe : safe_integer 1700000000000).
  { unfold safe_integer. vm_compute. discriminate. }
  eexists. split; [reflexivity|].
  eapply (proj1 (due_date_text_is_read_back
                   (VObj [("id", VStr "86a1"); ("name", VStr "T1");
                          ("due_date", VStr "1700000000000"); ("url", VStr "u")])
                   _ 1700000000000 Hsafe eq_refl)).
  reflexivity.
Defined.

(** * Earlier revisions *)

(** ** The loop of the first revision and the parallel map of the latest *)

Section LoopAndMap.

Context {World : Type}.

Lemma run_mapM_cons {A B} (f : A → M World B) (x : A) (l : list A) (w : World) :
  run (mapM f (x :: l)) w = run (y ← f x; k ← mapM f l; mret (y :: k)) w.
Proof. reflexivity. Qed.

(** Run from the same state, the loop and the parallel map end alike; the
    loop has issued a prefix of the calls of the map, all of them when the
    map succeeds. *)
Lemma loop_and_map {A B} (f : A → M World B) (l : list A) (w : World) :
  outcome (run (mapM f l) w) = outcome (run (par_all (f <$> l)) w)
  ∧ calls (run (mapM f l) w) `prefix_of` calls (run (par_all (f <$> l)) w)
  ∧ (is_error (outcome (run (par_all (f <$> l)) w)) = false →
     run (mapM f l) w = run (par_all (f <$> l)) w).
Proof.
  revert w. induction l as [|x l IH]; intros w; [done|].
  rewrite run_mapM_cons. cbn [fmap list_fmap par_all].
  rewrite !run_bind, run_par2.
  destruct (run (f x) w) as [[[e|y] w1] l1].
  - destruct (run (par_all _) w1) as [[rb w2] l2]. cbn.
    split_and!; [done|by apply prefix_app_r|done].
  - destruct (IH w1) as (Ho & Hp & Heq).
    rewrite run_bind.
    destruct (run (mapM f l) w1) as [[[e|k] w2] l2];
      destruct (run (par_all (f <$> l)) w1) as [[[e'|k'] w2'] l2'];
      cbn in *; simplify_eq.
    + split_and!; [done|by apply prefix_app|done].
    + specialize (Heq eq_refl). simplify_eq.
      by rewrite !app_nil_r.
Qed.

Variable fetch : request → World → option response * World.
Variable TOKEN : string.
Variable DEFAULT_TEAM : option string.

Lemma rev1_space_entries_same (spacesRes : value) (w : World) :
  (∀ s, s ≠ "" → get spacesRes "spaces" ≠ ok (VStr s)) →
  is_error (outcome (run (Rev1.space_entries fetch TOKEN spacesRes) w))
  = is_error (outcome (run (space_entries fetch TOKEN spacesRes) w))
  ∧ calls (run (Rev1.space_entries fetch TOKEN spacesRes) w)
    `prefix_of` calls (run (space_entries fetch TOKEN spacesRes) w)
  ∧ (is_error (outcome (run (space_entries fetch TOKEN spacesRes) w)) = false →
     run (Rev1.space_entries fetch TOKEN spacesRes) w
     = run (space_entries fetch TOKEN spacesRes) w).
Proof.
  intros Hstr. unfold Rev1.space_entries, space_entries.
  rewrite !run_bind, !run_lift.
  destruct (get spacesRes "spaces") as [e|sps] eqn:Hget; [done|].
  rewrite run_bind, run_lift.
  destruct (or_else sps (VArr [])) as [| |b|n| |s|l|fs] eqn:Hor;
    try (cbn; done).
  { exfalso. unfold or_else in Hor. destruct (truthy sps) eqn:Htr; [|done].
    subst sps. apply (Hstr s); [|done]. intros ->. discriminate Htr. }
  cbn [iterate]. rewrite !run_fmap.
  destruct (loop_and_map (space_entry fetch TOKEN) l w) as (Ho & Hp & Heq).
  destruct (run (mapM _ l) w) as [[r1 w1] l1],
    (run (par_all _) w) as [[r2 w2] l2]; cbn in *. subst r2.
  split_and!; [by destruct r1|done|].
  intros Hok. destruct r1 as [e|vs]; [done|]. specialize (Heq eq_refl).
  by simplify_eq.
Qed.

(** X12.  The rewrite of the hierarchy loop into a parallel map changed no
    result.  Whenever the latest hierarchy tool returns, the first revision,
    run from the same state, returns the same result after the same calls.
    When the spaces answer is not a non-empty string (which a loop walks
    character by character and a map refuses), one fails exactly when the other
    does, and the first revision, which stops at the failing space, has then
    issued a prefix of the calls of the latest. *)
Theorem rev1_hierarchy_same_results (team : option string) (w : World) :
  (∀ out, outcome (run (hierarchy fetch TOKEN DEFAULT_TEAM team) w) = ok out →
          run (Rev1.hierarchy fetch TOKEN DEFAULT_TEAM team) w
          = run (hierarchy fetch TOKEN DEFAULT_TEAM team) w)
  ∧ ((∀ c spacesRes s,
         calls (run (hierarchy fetch TOKEN DEFAULT_TEAM team) w) !! 1%nat = Some c →
         api_result c.2 = ok spacesRes → s ≠ "" →
         get spacesRes "spaces" ≠ ok (VStr s)) →
     is_error (outcome (run (Rev1.hierarchy fetch TOKEN DEFAULT_TEAM team) w))
     = is_error (outcome (run (hierarchy fetch TOKEN DEFAULT_TEAM team) w))
     ∧ calls (run (Rev1.hierarchy fetch TOKEN DEFAULT_TEAM team) w)
       `prefix_of` calls (run (hierarchy fetch TOKEN DEFAULT_TEAM team) w)).
Proof.
  unfold Rev1.hierarchy, hierarchy.
  destruct (negb _); [split; [discriminate|done]|].
  rewrite !run_bind, run_par2, !run_api.
  destruct (api_result _) as [e|teamInfo]; [split; [discriminate|done]|].
  destruct (api_result _) as [e|spacesRes] eqn:Hsp; [split; [discriminate|done]|].
  cbn [fst snd]. rewrite !run_bind.
  set (w2 := (fetch _ (fetch _ w).2).2).
  split.
  - intros out Hout.
    assert (Hnostr : ∀ s, s ≠ "" → get spacesRes "spaces" ≠ ok (VStr s)).
    { intros s Hne Hs. unfold space_entries in Hout.
      rewrite run_bind, run_lift, Hs in Hout. unfold or_else in Hout.
      cbn [truthy] in Hout. destruct (String.eqb_spec s ""); [done|].
      cbn [negb] in Hout. rewrite run_lift in Hout. discriminate Hout. }
    destruct (rev1_space_entries_same spacesRes w2 Hnostr) as (_ & _ & Heq).
    destruct (run (space_entries fetch TOKEN spacesRes) w2) as [[[e|v] w3] l3];
      [discriminate|].
    by rewrite (Heq eq_refl).
  - intros Hnostr.
    assert (Hns : ∀ s, s ≠ "" → get spacesRes "spaces" ≠ ok (VStr s)).
    { intros s. eapply (Hnostr _ spacesRes s).
      - destruct (run (space_entries _ _ _) w2) as [[[?|?] ?] ?]; [reflexivity|].
        by destruct (run _ _) as [[? ?] ?].
      - exact Hsp. }
    destruct (rev1_space_entries_same spacesRes w2 Hns) as (Ho & Hp & Heq).
    destruct (run (Rev1.space_entries fetch TOKEN spacesRes) w2) as [[r1 w3] l3],
      (run (space_entries fetch TOKEN spacesRes) w2) as [[r2 w3'] l3'];
      cbn in *. destruct r1 as [e|v], r2 as [e'|v']; cbn in *; try done.
    + split; [done|]. by do 2 apply prefix_cons.
    + specialize (Heq eq_refl). simplify_eq.
      by destruct (run _ w3') as [[? ?] ?].
Qed.

End LoopAndMap.

(** The three spaces of which the second fails: the first revision stops
    after six calls, the latest issues eight. *)
Lemma rev1_hierarchy_same_results_witness :
  length (calls (run (Rev1.hierarchy (table_fetch three_spaces) "pk_test" None
                        (Some "T")) tt)) = 6%nat
  ∧ calls (run (Rev1.hierarchy (table_fetch three_spaces) "pk_test" None (Some "T")) tt)
    `prefix_of`
    calls (run (hierarchy (table_fetch three_spaces) "pk_test" None (Some "T")) tt).
Proof.
  split; [reflexivity|].
  apply (rev1_hierarchy_same_results (table_fetch three_spaces) "pk_test" None
           (Some "T") tt).
  intros c spacesRes s Hc Hsp _ Hget.
  vm_compute in Hc. injection Hc as <-.
  vm_compute in Hsp. injection Hsp as <-. discriminate Hget.
Defined.

(** ** The first version, [index.js] *)

Section IndexJsFacts.

Context {World : Type}.
Variable fetch : request → World → option response * World.
Variable TOKEN : string.
Variable DEFAULT_TEAM : option string.

Lemma run_js_api (m p : string) (b : option value) (w : World) :
  run (IndexJs.api fetch TOKEN m p b) w =
  (IndexJs.api_result (fetch (mk_request TOKEN m p b) w).1,
   (fetch (mk_request TOKEN m p b) w).2,
   [(mk_request TOKEN m p b, (fetch (mk_request TOKEN m p b) w).1)]).
Proof. unfold run, IndexJs.api. by destruct (fetch _ w). Qed.

(** X13.  The special case for 204 is the only change [api] went through.
    On every answer whose status is not 204, and when [fetch] rejects, the
    [api] of [index.js] and the latest [api] do the same; on a 204 the
    latest yields the empty object, where [index.js] parsed the body and so
    failed on the empty body of a 204.  Both issue the same request. *)
Theorem api_204_is_the_only_change (m p : string) (b : option value) (w : World) :
  let o := (fetch (mk_request TOKEN m p b) w).1 in
  calls (run (IndexJs.api fetch TOKEN m p b) w) = calls (run (api fetch TOKEN m p b) w)
  ∧ ((∀ r, o = Some r → status r ≠ 204) →
     run (IndexJs.api fetch TOKEN m p b) w = run (api fetch TOKEN m p b) w)
  ∧ (∀ r, o = Some r → status r = 204 →
     outcome (run (api fetch TOKEN m p b) w) = ok (VObj [])
     ∧ outcome (run (IndexJs.api fetch TOKEN m p b) w)
       = match json_body r with
         | Some v => ok v
         | None => throw SyntaxError
         end).
Proof.
  intros o. rewrite run_js_api, run_api. fold o. split_and!; [done| |].
  - intros Hne. f_equal. f_equal. destruct o as [r|]; [|done].
    unfold IndexJs.api_result, api_result. destruct (negb (res_ok r)); [done|].
    destruct (Z.eqb_spec (status r) 204) as [H|_]; [|done]. by destruct (Hne r).
  - intros r -> H204. cbn [outcome fst].
    unfold IndexJs.api_result, api_result, res_ok. rewrite H204. by cbn.
Qed.

Lemma mk_request_same_document (m p : string) (fs1 fs2 : list (string * value)) :
  stringify (VObj fs1) = stringify (VObj fs2) →
  mk_request TOKEN m p (Some (VObj fs1)) = mk_request TOKEN m p (Some (VObj fs2)).
Proof. intros H. unfold mk_request. cbn [truthy]. by rewrite H. Qed.

Lemma js_update_calls (id : string) (name desc status : option string)
    (priority : option Z) (w : World) :
  calls (run (IndexJs.update fetch TOKEN id name desc status priority) w)
  = [(mk_request TOKEN "PUT" ("/task/" +:+ id)
        (Some (VObj (update_body name desc status priority None))),
      (fetch (mk_request TOKEN "PUT" ("/task/" +:+ id)
                (Some (VObj (update_body name desc status priority None)))) w).1)].
Proof.
  unfold IndexJs.update. rewrite run_bind, run_js_api.
  rewrite (mk_request_same_document _ _ _ (update_body name desc status priority None))
    by (destruct name, desc, status, priority; reflexivity).
  destruct (IndexJs.api_result _) as [e|t]; cbn [calls snd]; [reflexivity|].
  rewrite run_bind, run_lift. by destruct (id_and_url t).
Qed.

Lemma js_create_calls (list_id name : string) (desc : option string)
    (priority : option Z) (tags : option (list string)) (w : World) :
  calls (run (IndexJs.create fetch TOKEN list_id name desc priority tags) w)
  = calls (run (create fetch TOKEN list_id name desc priority tags None None) w).
Proof.
  rewrite create_calls. unfold IndexJs.create. rewrite run_bind, run_js_api.
  unfold create_body.
  rewrite (mk_request_same_document _ _ _
             [("name", VStr name); ("description", opt_str desc);
              ("priority", opt_num priority); ("tags", opt_strs tags);
              ("due_date", opt_num None); ("assignees", opt_nums None)])
    by (destruct desc, priority, tags; reflexivity).
  destruct (IndexJs.api_result _) as [e|t]; cbn [calls snd]; [reflexivity|].
  rewrite run_bind, run_lift. by destruct (id_and_url t).
Qed.

(** X14.  The writing tools kept their requests: an [update] without [due]
    and a [create] without [due] and [assignees] send, and get answered,
    exactly what the [update] and [create] of [index.js] did with the same
    arguments, although [index.js] passes every property to [api] and lets
    [JSON.stringify] drop the missing ones. *)
Theorem index_js_writes_are_kept (id list_id name : string)
    (new_name desc status : option string) (priority : option Z)
    (tags : option (list string)) (w : World) :
  calls (run (IndexJs.update fetch TOKEN id new_name desc status priority) w)
  = calls (run (update fetch TOKEN id new_name desc status priority None) w)
  ∧ calls (run (IndexJs.create fetch TOKEN list_id name desc priority tags) w)
    = calls (run (create fetch TOKEN list_id name desc priority tags None None) w).
Proof.
  split; [|apply js_create_calls].
  by rewrite js_update_calls, update_calls.
Qed.

Lemma fail_fast_ret {A} (a : A) : fail_fast (mret a : M World A).
Proof. intros w l1 c l2 H. by destruct l1. Qed.

Lemma fail_fast_lift {A} (r : result A) : fail_fast (lift r : M World A).
Proof. intros w l1 c l2 H. by destruct l1. Qed.

Lemma fail_fast_api (m p : string) (b : option value) :
  fail_fast (IndexJs.api fetch TOKEN m p b).
Proof.
  intros w l1 c l2. rewrite run_js_api. cbn [calls outcome fst snd].
  destruct l1 as [|c1 l1]; [|by destruct l1].
  intros [= <- <-] Hc. by split.
Qed.

Lemma fail_fast_bind {A B} (m : M World A) (f : A → M World B) :
  fail_fast m → (∀ a, fail_fast (f a)) → fail_fast (m ≫= f).
Proof.
  intros Hm Hf w l1 c l2. rewrite run_bind. specialize (Hm w).
  destruct (run m w) as [[[e|a] w1] la]; cbn in *; [by apply Hm|].
  specialize (Hf a w1). destruct (run (f a) w1) as [[r w2] lb]; cbn in *.
  intros Heq Hc. apply app_eq_app in Heq as [k [[-> Hk]|[-> ->]]].
  - destruct k as [|c' k]; cbn in Hk.
    + subst lb. by apply (Hf [] c l2).
    + injection Hk as <- ->. by destruct (Hm l1 c k eq_refl Hc).
  - by apply (Hf k c l2).
Qed.

Lemma fail_fast_mapM {A B} (f : A → M World B) (l : list A) :
  (∀ x, fail_fast (f x)) → fail_fast (mapM f l).
Proof.
  intros Hf. induction l as [|x l IH]; [apply fail_fast_ret|].
  change (fail_fast (y ← f x; k ← mapM f l; mret (y :: k))).
  apply fail_fast_bind; [done|intros y].
  apply fail_fast_bind; [done|intros k]. apply fail_fast_ret.
Qed.

(** X15.  The hierarchy tool of [index.js] awaits every call before it
    issues the next: a call that failed is the last call it issued, and the
    tool then fails (the latest revision, by contrast, has issued the calls
    of every space by the time it fails). *)
Theorem index_js_hierarchy_stops_at_failure (team : option string) (w : World)
    (l1 l2 : list call) (c : call) :
  calls (run (IndexJs.hierarchy fetch TOKEN DEFAULT_TEAM team) w) = l1 ++ c :: l2 →
  failed_js c →
  l2 = [] ∧ ∃ e, outcome (run (IndexJs.hierarchy fetch TOKEN DEFAULT_TEAM team) w) = throw e.
Proof.
  intros Hc Hf.
  assert (Hff : fail_fast (IndexJs.hierarchy fetch TOKEN DEFAULT_TEAM team)).
  { unfold IndexJs.hierarchy. destruct (negb _); [apply fail_fast_lift|].
    apply fail_fast_bind; [apply fail_fast_api|intros s].
    apply fail_fast_bind; [apply fail_fast_lift|intros sps].
    apply fail_fast_bind; [apply fail_fast_lift|intros l].
    apply fail_fast_bind; [|intros; apply fail_fast_ret].
    apply fail_fast_mapM. intros sp. unfold IndexJs.space_entry.
    apply fail_fast_bind; [apply fail_fast_lift|intros sid].
    apply fail_fast_bind; [apply fail_fast_api|intros f].
    apply fail_fast_bind; [apply fail_fast_api|intros l'].
    apply fail_fast_lift. }
  destruct (Hff w l1 c l2 Hc Hf) as [-> He]. split; [done|].
  destruct (outcome _) as [e|v]; [by eexists|discriminate].
Qed.

End IndexJsFacts.

(** An unassigned task deleted upstream with 204 and an empty body, asked
    through both versions of [api]. *)
Lemma api_204_is_the_only_change_witness :
  outcome (run (api (table_fetch crud_table) "pk_test" "DELETE" "/task/86a2" None) tt)
  = ok (VObj [])
  ∧ outcome (run (IndexJs.api (table_fetch crud_table) "pk_test" "DELETE" "/task/86a2"
                    None) tt)
    = throw SyntaxError.
Proof.
  pose proof (api_204_is_the_only_change (table_fetch crud_table) "pk_test" "DELETE"
                "/task/86a2" None tt) as H.
  cbv zeta in H. destruct H as (_ & _ & H).
  apply (H {| status := 204; text := ""; json_body := None |}); reflexivity.
Defined.

(** The three spaces of which the second fails: [index.js] stops at the
    fourth call. *)
Lemma index_js_hierarchy_stops_at_failure_witness :
  length (calls (run (IndexJs.hierarchy (table_fetch three_spaces) "pk_test" None
                        (Some "T")) tt)) = 4%nat
  ∧ ∃ e, outcome (run (IndexJs.hierarchy (table_fetch three_spaces) "pk_test" None
                         (Some "T")) tt) = throw e.
Proof.
  split; [reflexivity|].
  apply (index_js_hierarchy_stops_at_failure (table_fetch three_spaces) "pk_test" None
           (Some "T") tt
           (take 3 (calls (run (IndexJs.hierarchy (table_fetch three_spaces) "pk_test"
                                  None (Some "T")) tt)))
           []
           (mk_request "pk_test" "GET" (folder_path (VStr "s2")) None,
            refusal 500 "upstream unavailable")); reflexivity.
Defined.

Lemma lookup_field_omap_cons (k k' : string) (x : value) (fs : list (string * value)) :
  lookup_field k (omap (λ kv, match kv with (a, y) => pair a <$> stringify y end)
                    ((k', x) :: fs))
  = match stringify x with
    | Some j =>
        if String.eqb k k' then Some j
        else lookup_field k (omap (λ kv, match kv with (a, y) => pair a <$> stringify y end) fs)
    | None => lookup_field k (omap (λ kv, match kv with (a, y) => pair a <$> stringify y end) fs)
    end.
Proof. cbn. by destruct (stringify x). Qed.

(** X16.  Whenever the latest task tool shapes an answer, [index.js] shaped
    it too, and every property of the result other than [assignees] and
    [due] has the same value in both: the latest revision only added these
    two, which the result of [index.js] never has. *)
Theorem task_fields_are_kept (t v : value) :
  shape_task t = ok v →
  ∃ v', IndexJs.shape_task t = ok v'
        ∧ (∀ k, k ≠ "assignees" → k ≠ "due" →
                jfield k (written v) = jfield k (written v'))
        ∧ jfield "assignees" (written v') = None
        ∧ jfield "due" (written v') = None.
Proof.
  unfold shape_task, IndexJs.shape_task. intros H. repeat bind_inv H.
  cbn in H. injection H as <-. cbn [mbind result_bind].
  repeat match goal with
         | E : ?x = inr _ |- context [?x] => rewrite E; cbn [mbind result_bind]
         end.
  eexists. split; [reflexivity|]. split_and!.
  - intros k Ha Hd. rewrite !jfield_written_VObj, !lookup_field_omap_cons.
    apply String.eqb_neq in Ha, Hd. rewrite Ha, Hd.
    by repeat destruct (stringify _).
  - kept_lookup. reflexivity.
  - kept_lookup. reflexivity.
Qed.

Section IndexJsSearch.

Context {World : Type}.
Variable fetch : request → World → option response * World.
Variable TOKEN : string.
Variable DEFAULT_TEAM : option string.

Lemma js_search_tasks_ok_inv (res v : value) :
  IndexJs.search_tasks res = ok v →
  ∃ tasks_field found shaped,
    get res "tasks" = ok tasks_field ∧
    or_else tasks_field (VArr []) = VArr found ∧
    Forall2 (λ t s, IndexJs.shape_search_task t = ok s) (take 10 found) shaped ∧
    v = VArr shaped.
Proof.
  unfold IndexJs.search_tasks. intros H. bind_inv H. bind_inv H.
  apply js_map_ok_inv in H as (l & k & -> & -> & Hlk).
  destruct (or_else v0 (VArr [])) eqn:Hor; cbn in E0; try discriminate.
  injection E0 as <-. by exists v0, elems, k.
Qed.

(** X17.  When the search tool of [index.js] returns, its result is built
    from the first ten tasks of the upstream answer, one item per task and
    in order: never more than ten items.  Its one request carries the text
    escaped by [encodeURIComponent] and no filter. *)
Theorem index_js_search_returns_at_most_10 (q : string) (team : option string)
    (w : World) (out : option JSON) :
  outcome (run (IndexJs.search fetch TOKEN DEFAULT_TEAM q team) w) = ok out →
  ∃ o res tasks_field found shaped,
    calls (run (IndexJs.search fetch TOKEN DEFAULT_TEAM q team) w)
    = [(mk_request TOKEN "GET"
          ("/team/" +:+ ToString (or_else (opt_str team) (opt_str DEFAULT_TEAM))
             +:+ "/task?query=" +:+ encodeURIComponent q) None, o)] ∧
    IndexJs.api_result o = ok res ∧
    get res "tasks" = ok tasks_field ∧
    or_else tasks_field (VArr []) = VArr found ∧
    Forall2 (λ t s, IndexJs.shape_search_task t = ok s) (take 10 found) shaped ∧
    out = Some (JArr (written <$> shaped)) ∧
    length shaped = Nat.min 10 (length found).
Proof.
  unfold IndexJs.search. destruct (negb _); [discriminate|].
  rewrite run_bind, run_js_api.
  destruct (IndexJs.api_result _) as [e|res] eqn:Hres; [discriminate|].
  cbn [fst snd]. rewrite run_bind, run_lift.
  destruct (IndexJs.search_tasks res) as [e|v] eqn:Hv; [discriminate|].
  cbn. intros [= <-].
  apply js_search_tasks_ok_inv in Hv as (tf & found & shaped & Hget & Hor & Hsh & ->).
  eexists _, res, tf, found, shaped. split_and!; try done.
  apply Forall2_length in Hsh. by rewrite <- Hsh, length_take.
Qed.

End IndexJsSearch.

(** A task with tags, assignees and a due date, through both versions. *)
Lemma task_fields_are_kept_witness :
  ∃ v', IndexJs.shape_task (VObj [("id", VStr "86a1"); ("name", VStr "T1");
                                  ("tags", VArr [VObj [("name", VStr "urgent")]]);
                                  ("assignees", VArr [VObj [("id", VNum 81);
                                                            ("username", VStr "ada")]]);
                                  ("due_date", VStr "1700000000000"); ("url", VStr "u")])
        = ok v'
        ∧ jfield "tags" (written v') = Some (JArr [JStr "urgent"])
        ∧ jfield "due" (written v') = None.
Proof.
  edestruct (task_fields_are_kept
               (VObj [("id", VStr "86a1"); ("name", VStr "T1");
                      ("tags", VArr [VObj [("name", VStr "urgent")]]);
                      ("assignees", VArr [VObj [("id", VNum 81);
                                                ("username", VStr "ada")]]);
                      ("due_date", VStr "1700000000000"); ("url", VStr "u")]))
    as (v' & Hv' & Hsame & _ & Hdue); [reflexivity|].
  exists v'. split_and!; [exact Hv'| |exact Hdue].
  rewrite <- (Hsame "tags"); [reflexivity|discriminate|discriminate].
Defined.

(** Twenty-five matches upstream, ten items returned by [index.js]. *)
Lemma index_js_search_returns_at_most_10_witness :
  ∃ shaped,
    outcome (run (IndexJs.search (table_fetch search_table) "pk_test" None "report"
                    (Some "T")) tt)
    = ok (Some (JArr (written <$> shaped)))
    ∧ length shaped = 10%nat.
Proof.
  edestruct (index_js_search_returns_at_most_10 (table_fetch search_table) "pk_test"
               None "report" (Some "T") tt)
    as (o & res & tf & found & shaped & Hc & Ho & Hg & Hf & Hs & Hout & Hlen).
  { vm_compute. reflexivity. }
  exists shaped. split.
  - rewrite <- Hout. vm_compute. reflexivity.
  - rewrite Hlen. vm_compute in Hc. injection Hc as <-.
    vm_compute in Ho. injection Ho as <-.
    vm_compute in Hg. injection Hg as <-.
    vm_compute in Hf. injection Hf as <-.
    reflexivity.
Defined.

(** ** The calls of a hierarchy, and the writes answered without content *)

Section CallPlan.

Context {World : Type}.
Variable fetch : request → World → option response * World.
Variable TOKEN : string.
Variable DEFAULT_TEAM : option string.

Lemma space_urls_of_string_ids (l : list value) (ids : list string) :
  Forall2 (λ sp i, get sp "id" = ok (VStr i)) l ids →
  l ≫= space_urls = ids ≫= urls_of_space.
Proof.
  induction 1 as [|sp i l ids Hi _ IH]; [reflexivity|].
  cbn [mbind list_bind]. rewrite IH. f_equal.
  unfold space_urls. by rewrite Hi.
Qed.

(** X7.  When the team is resolved, the two initial calls succeed and every
    space of the upstream answer has a string as its id (as the interface
    [Space] declares), the hierarchy tool issues, after these two, the folder
    call and the list call of every space, space by space in the order of
    the answer, whatever these calls are answered: a failure for one space
    does not keep the calls of the later spaces from being issued. *)
Theorem hierarchy_call_plan (team : option string) (w : World)
    (teamInfo spacesRes sps : value) (l : list value) (ids : list string) :
  let teamId := or_else (opt_str team) (opt_str DEFAULT_TEAM) in
  let r1 := fetch (mk_request TOKEN "GET" ("/team/" +:+ ToString teamId) None) w in
  let r2 := fetch (mk_request TOKEN "GET"
                     ("/team/" +:+ ToString teamId +:+ "/space?archived=false") None)
              r1.2 in
  truthy teamId = true →
  api_result r1.1 = ok teamInfo →
  api_result r2.1 = ok spacesRes →
  get spacesRes "spaces" = ok sps →
  or_else sps (VArr []) = VArr l →
  Forall2 (λ sp i, get sp "id" = ok (VStr i)) l ids →
  (url ∘ fst) <$> calls (run (hierarchy fetch TOKEN DEFAULT_TEAM team) w)
  = [API +:+ "/team/" +:+ ToString teamId;
     API +:+ "/team/" +:+ ToString teamId +:+ "/space?archived=false"]
    ++ (ids ≫= urls_of_space).
Proof.
  intros teamId r1 r2 Htr H1 H2 Hsp Hor Hids. unfold hierarchy. fold teamId.
  rewrite Htr. cbn [negb].
  rewrite run_bind, run_par2, !run_api. fold r1. fold r2.
  rewrite H1, H2. cbn [fst snd].
  rewrite run_bind. unfold space_entries at 1.
  rewrite run_bind, run_lift, Hsp. cbn [mbind]. rewrite Hor, run_fmap.
  pose proof (par_all_space_urls fetch TOKEN l r2.2) as Hl.
  rewrite (space_urls_of_string_ids l ids Hids) in Hl.
  destruct (run (par_all _) r2.2) as [[[e|vs] w3] l3]; cbn in Hl |- *.
  - by rewrite Hl.
  - rewrite run_bind, run_lift.
    destruct (team_members teamInfo); cbn; by rewrite ?app_nil_r, Hl.
Qed.

(** X18.  A write that upstream answers with 204 succeeds with the empty
    object: [api] turns the missing body into [{}], whose [id] and [url] are
    [undefined], and [JSON.stringify] drops both properties.  So [create]
    and [update] can succeed without telling the id of the task. *)
Theorem writes_without_content_return_empty (id list_id name : string)
    (new_name desc new_status : option string) (priority due : option Z)
    (tags : option (list string)) (assignees : option (list Z)) (w : World) :
  (∀ r, (fetch (mk_request TOKEN "PUT" ("/task/" +:+ id)
                  (Some (VObj (update_body new_name desc new_status priority due)))) w).1
        = Some r →
        status r = 204 →
        outcome (run (update fetch TOKEN id new_name desc new_status priority due) w)
        = ok (Some (JObj [])))
  ∧ (∀ r, (fetch (mk_request TOKEN "POST" ("/list/" +:+ list_id +:+ "/task")
                    (Some (create_body name desc priority tags due assignees))) w).1
          = Some r →
          status r = 204 →
          outcome (run (create fetch TOKEN list_id name desc priority tags due assignees) w)
          = ok (Some (JObj []))).
Proof.
  split; intros r Hr H204.
  - unfold update. cbv zeta. rewrite run_bind, run_api, Hr.
    unfold api_result, res_ok. rewrite H204. cbn. reflexivity.
  - unfold create. rewrite run_bind, run_api, Hr.
    unfold api_result, res_ok. rewrite H204. cbn. reflexivity.
Qed.

End CallPlan.

(** Three spaces, the second of which fails: eight calls, in the order of
    the spaces. *)
Lemma hierarchy_call_plan_witness :
  (url ∘ fst) <$> calls (run (hierarchy (table_fetch three_spaces) "pk_test" None
                                (Some "T")) tt)
  = [ API +:+ "/team/T"; API +:+ "/team/T/space?archived=false";
      API +:+ "/space/s1/folder?archived=false"; API +:+ "/space/s1/list?archived=false";
      API +:+ "/space/s2/folder?archived=false"; API +:+ "/space/s2/list?archived=false";
      API +:+ "/space/s3/folder?archived=false"; API +:+ "/space/s3/list?archived=false" ].
Proof.
  rewrite (hierarchy_call_plan (table_fetch three_spaces) "pk_test" None (Some "T") tt
             (VObj [("team", VObj [("members", VArr [])])])
             (VObj [("spaces", VArr [named "s1" "Design"; named "s2" "Build";
                                     named "s3" "Ship"])])
             (VArr [named "s1" "Design"; named "s2" "Build"; named "s3" "Ship"])
             [named "s1" "Design"; named "s2" "Build"; named "s3" "Ship"]
             ["s1"; "s2"; "s3"]);
    try reflexivity.
  by repeat constructor.
Defined.

(** An update answered with 204. *)
Lemma writes_without_content_return_empty_witness :
  outcome (run (update (table_fetch crud_table) "pk_test" "86a2"
                  (Some "Ship it") None None None None) tt)
  = ok (Some (JObj [])).
Proof.
  apply (proj1 (writes_without_content_return_empty (table_fetch crud_table) "pk_test"
                  "86a2" "L1" "T1" (Some "Ship it") None None None None None None tt)
           {| status := 204; text := ""; json_body := None |});
    reflexivity.
Defined.

Section IndexJsTags.

Context {World : Type}.
Variable fetch : request → World → option response * World.
Variable TOKEN : string.


End IndexJsTags.

